(** * pelikan slimcache: the server entry point ([src/server/slimcache/main.c])

    The entry point is orchestration code: it parses the command line, loads
    the options, sets the modules up, registers two timed events with the
    admin thread, runs the core and exits.  Everything it does is a call
    into another module, so the embedding records the calls as a trace of
    events and threads the file's global variables through a state and exit
    monad.  The answers of the callees (return codes, option values, the
    handles of the timed events, what happens inside [core_run]) are the
    fields of an environment, over which every theorem quantifies. *)

From Stdlib Require Import ZArith Lia Ascii.
From Stdlib.Strings Require Import Byte.
From stdpp Require Import base option list strings.

Local Open Scope Z_scope.
Local Open Scope string_scope.
Local Open Scope list_scope.

(** ** Constants of the included headers *)

(** <sysexits.h> *)
Definition EX_OK : Z := 0.
Definition EX_USAGE : Z := 64.
Definition EX_DATAERR : Z := 65.
Definition EX_OSERR : Z := 71.
Definition EX_CONFIG : Z := 78.

(** <signal.h> *)
Definition SIGTERM : Z := 15.

(** ccommon: [rstatus_i] and the line terminator of [log_stdout] texts *)
Definition CC_OK : Z := 0.
Definition CRLF : string := String "013"%char (String "010"%char EmptyString).

(** ** Data of main.c *)

(** [enum slimcache_timeout_event_type] *)
Definition DLOG_TIMEOUT_EV : nat := 0.
Definition KLOG_TIMEOUT_EV : nat := 1.
Definition MAX_TIMEOUT_EV : nat := 2.

(** A [struct timeout_event *]: [None] is NULL. *)
Definition timeout_event := nat.
Definition FILE := nat.

(** The functions main.c passes around by address. *)
Inductive atexit_fn := Fn_teardown.
Inductive sig_fn := Fn_shutdown.
Inductive timeout_cb := debug_log_flush | klog_flush.
Inductive process_fn :=
  slimcache_process_read | slimcache_process_write | slimcache_process_error.

(** The objects whose address main.c takes. *)
Inductive addr := Addr_worker_processor | Addr_worker_processor_running.

Inductive memorder := ATOMIC_RELAXED | ATOMIC_ACQUIRE | ATOMIC_RELEASE | ATOMIC_SEQ_CST.

(** [struct data_processor] *)
Record data_processor := {
  dp_read : process_fn;
  dp_write : process_fn;
  dp_error : process_fn;
  running : bool
}.

(** The modules with a [*_setup] and a [*_teardown] entry. *)
Inductive module_id :=
| m_log | m_debug
| m_buf | m_dbuf | m_event | m_sockio | m_tcp | m_timing_wheel
| m_time | m_procinfo | m_request | m_response | m_parse | m_compose
| m_klog | m_cuckoo | m_process | m_admin_process
| m_core_admin | m_core_server | m_core_worker.

Inductive varg := VInt (z : Z) | VStr (s : string).

(** One event per call that leaves main.c. *)
Inductive event :=
| log_stdout (text : string)
| log_stderr (fmt : string) (args : list varg)
| log_error (fmt : string)
| ev_atexit (f : atexit_fn)
| ev_signal_override (signo : Z) (info : string) (flags mask : Z) (f : sig_fn)
| module_setup (m : module_id)
| module_teardown (m : module_id)
| ev_daemonize
| ev_create_pidfile (fname : string)
| ev_remove_pidfile (fname : string)
| ev_core_admin_register (intvl : Z) (cb : timeout_cb)
| ev_core_admin_unregister (tev : option timeout_event)
| ev_atomic_store_n (a : addr) (v : bool) (mo : memorder)
| ev_core_destroy
| ev_core_run (processor : addr) (flag : addr)
| ev_show_version
| ev_option_describe_all
| ev_metric_describe_all
| ev_fopen (path mode : string)
| ev_fclose (fp : FILE)
| ev_option_load_default
| ev_option_load_file (fp : FILE)
| ev_option_print_all
| ev_exit (status : Z).

#[global] Instance atexit_fn_eq_dec : EqDecision atexit_fn.
Proof. solve_decision. Defined.
#[global] Instance sig_fn_eq_dec : EqDecision sig_fn.
Proof. solve_decision. Defined.
#[global] Instance timeout_cb_eq_dec : EqDecision timeout_cb.
Proof. solve_decision. Defined.
#[global] Instance addr_eq_dec : EqDecision addr.
Proof. solve_decision. Defined.
#[global] Instance memorder_eq_dec : EqDecision memorder.
Proof. solve_decision. Defined.
#[global] Instance module_id_eq_dec : EqDecision module_id.
Proof. solve_decision. Defined.
#[global] Instance varg_eq_dec : EqDecision varg.
Proof. solve_decision. Defined.
#[global] Instance event_eq_dec : EqDecision event.
Proof. solve_decision. Defined.

(** What [core_run] does, seen from main.c: it returns, it keeps serving, or
    SIGTERM is delivered while it serves. *)
Inductive core_behaviour := CoreReturns | CoreServes | CoreSigterm.

(** The answers of the callees. *)
Record env := {
  atexit_result : Z;
  signal_override_result : Z;
  debug_setup_result : Z;
  opt_daemonize : bool;
  opt_pid_filename : option string;
  opt_dlog_intvl : Z;
  opt_klog_intvl : Z;
  core_admin_register_result : Z -> timeout_cb -> option timeout_event;
  fopen_result : string -> option FILE;
  option_load_default_result : Z;
  option_load_file_result : Z;
  core_run_behaviour : core_behaviour
}.

(** The globals of main.c, the two registries of the C runtime that main.c
    writes ([atexit], the signal dispositions), and the calls made so far. *)
Record world := {
  worker_processor : data_processor;
  slimcache_tev : list (option timeout_event);
  atexit_registered : list atexit_fn;
  signal_handlers : list (Z * sig_fn);
  trace : list event
}.

Definition set_running (b : bool) (w : world) : world :=
  {| worker_processor :=
       {| dp_read := dp_read (worker_processor w);
          dp_write := dp_write (worker_processor w);
          dp_error := dp_error (worker_processor w);
          running := b |};
     slimcache_tev := slimcache_tev w;
     atexit_registered := atexit_registered w;
     signal_handlers := signal_handlers w;
     trace := trace w |}.

Definition set_tev (i : nat) (t : option timeout_event) (w : world) : world :=
  {| worker_processor := worker_processor w;
     slimcache_tev := <[i := t]> (slimcache_tev w);
     atexit_registered := atexit_registered w;
     signal_handlers := signal_handlers w;
     trace := trace w |}.

Definition push_atexit (f : atexit_fn) (w : world) : world :=
  {| worker_processor := worker_processor w;
     slimcache_tev := slimcache_tev w;
     atexit_registered := f :: atexit_registered w;
     signal_handlers := signal_handlers w;
     trace := trace w |}.

Definition set_handler (signo : Z) (f : sig_fn) (w : world) : world :=
  {| worker_processor := worker_processor w;
     slimcache_tev := slimcache_tev w;
     atexit_registered := atexit_registered w;
     signal_handlers := (signo, f) :: signal_handlers w;
     trace := trace w |}.

Definition emits (tr : list event) (w : world) : world :=
  {| worker_processor := worker_processor w;
     slimcache_tev := slimcache_tev w;
     atexit_registered := atexit_registered w;
     signal_handlers := signal_handlers w;
     trace := trace w ++ tr |}.

Definition emit (e : event) (w : world) : world := emits [e] w.

(** The static initialisers: [.running = true], a zeroed [slimcache_tev],
    nothing registered. *)
Definition initial_world : world :=
  {| worker_processor :=
       {| dp_read := slimcache_process_read;
          dp_write := slimcache_process_write;
          dp_error := slimcache_process_error;
          running := true |};
     slimcache_tev := replicate MAX_TIMEOUT_EV None;
     atexit_registered := [];
     signal_handlers := [];
     trace := [] |}.

(** ** The monad: state, and the ways a C function does not return *)

Inductive outcome (A : Type) :=
| Returned (a : A) (w : world)
| Exited (status : Z) (w : world)
| Serving (w : world)
| Killed (signo : Z) (w : world).
Arguments Returned {A} a w.
Arguments Exited {A} status w.
Arguments Serving {A} w.
Arguments Killed {A} signo w.

Definition M (A : Type) : Type := world -> outcome A.

#[global] Instance M_ret : MRet M := fun A a w => Returned a w.
#[global] Instance M_bind : MBind M := fun A B f m w =>
  match m w with
  | Returned a w' => f a w'
  | Exited st w' => Exited st w'
  | Serving w' => Serving w'
  | Killed s w' => Killed s w'
  end.

Definition final_world {A} (o : outcome A) : world :=
  match o with
  | Returned _ w | Exited _ w | Serving w | Killed _ w => w
  end.

Definition exit_status {A} (o : outcome A) : option Z :=
  match o with Exited st _ => Some st | _ => None end.

Definition call (e : event) : M unit := fun w => Returned tt (emit e w).
Definition get_world : M world := fun w => Returned w w.
Definition modify (f : world -> world) : M unit := fun w => Returned tt (f w).

(** [if (c) { body }] *)
Definition when (c : bool) (body : M unit) : M unit :=
  if c then body else mret tt.

(** [for (int i = lo; i < hi; ++i) body(i)] *)
Definition for_range (lo hi : nat) (body : nat -> M unit) : M unit :=
  foldr (fun i k => body i ;; k) (mret tt) (seq lo (hi - lo)%nat).

Definition strcmp_eq (a b : string) : bool := String.eqb a b.

(** ** The functions of main.c *)

Section Program.
Variable E : env.

Definition show_usage : M unit :=
  call (log_stdout (
      "Usage:" +:+ CRLF +:+
      "  pelikan_slimcache [option|config]" +:+ CRLF)) ;;
  call (log_stdout (
      "Description:" +:+ CRLF +:+
      "  pelikan_slimcache is one of the unified cache backends. " +:+ CRLF +:+
      "  It uses cuckoo hashing to efficiently store small key/val " +:+ CRLF +:+
      "  pairs. It speaks the memcached ASCII protocol and supports " +:+ CRLF +:+
      "  most ASCII memcached commands, except prepend/append. " +:+ CRLF +:+
      CRLF +:+
      "  The storage in slimcache is preallocated as a hash table. " +:+ CRLF +:+
      "  Therefore, maximum key+val size has to be specified when " +:+ CRLF +:+
      "  starting the service, and cannot be updated dynamically." +:+ CRLF)) ;;
  call (log_stdout (
      "Command-line options:" +:+ CRLF +:+
      "  -h, --help        show this message" +:+ CRLF +:+
      "  -v, --version     show version number" +:+ CRLF +:+
      "  -c, --config      list & describe all options in config" +:+ CRLF +:+
      "  -s, --stats       list & describe all metrics in stats" +:+ CRLF)) ;;
  call (log_stdout (
      "Example:" +:+ CRLF +:+
      "  pelikan_slimcache slimcache.conf" +:+ CRLF +:+ CRLF +:+
      "Sample config files can be found under the config dir." +:+ CRLF)).

Definition teardown : M unit :=
  call (module_teardown m_core_worker) ;;
  call (module_teardown m_core_server) ;;
  call (module_teardown m_core_admin) ;;
  call (module_teardown m_admin_process) ;;
  call (module_teardown m_process) ;;
  call (module_teardown m_cuckoo) ;;
  call (module_teardown m_klog) ;;
  call (module_teardown m_compose) ;;
  call (module_teardown m_parse) ;;
  call (module_teardown m_response) ;;
  call (module_teardown m_request) ;;
  call (module_teardown m_procinfo) ;;
  call (module_teardown m_time) ;;

  call (module_teardown m_timing_wheel) ;;
  call (module_teardown m_tcp) ;;
  call (module_teardown m_sockio) ;;
  call (module_teardown m_event) ;;
  call (module_teardown m_dbuf) ;;
  call (module_teardown m_buf) ;;

  call (module_teardown m_debug) ;;
  call (module_teardown m_log).

(** The C runtime: [exit] calls the functions registered with [atexit], the
    last registered first, and ends the process with the status. *)
Definition run_atexit_fn (f : atexit_fn) : M unit :=
  match f with Fn_teardown => teardown end.

Definition exit {A} (status : Z) : M A := fun w =>
  let w0 := emit (ev_exit status) w in
  match foldr (fun f k => run_atexit_fn f ;; k) (mret tt) (atexit_registered w0) w0 with
  | Returned _ w' => Exited status w'
  | Exited st w' => Exited st w'
  | Serving w' => Serving w'
  | Killed s w' => Killed s w'
  end.

(** [atexit(f)]: registers on success only; returns the callee's code. *)
Definition atexit (f : atexit_fn) : M Z :=
  call (ev_atexit f) ;;
  when (bool_decide (atexit_result E = 0)) (modify (push_atexit f)) ;;
  mret (atexit_result E).

(** [signal_override(signo, info, flags, mask, handler)] *)
Definition signal_override (signo : Z) (info : string) (flags mask : Z)
    (f : sig_fn) : M Z :=
  call (ev_signal_override signo info flags mask f) ;;
  when (bool_decide (0 <= signal_override_result E)) (modify (set_handler signo f)) ;;
  mret (signal_override_result E).

Definition debug_setup : M Z :=
  call (module_setup m_debug) ;; mret (debug_setup_result E).

Definition core_admin_register (intvl : Z) (cb : timeout_cb)
    : M (option timeout_event) :=
  call (ev_core_admin_register intvl cb) ;;
  mret (core_admin_register_result E intvl cb).

Definition fopen (path mode : string) : M (option FILE) :=
  call (ev_fopen path mode) ;; mret (fopen_result E path).

Definition option_load_default : M Z :=
  call ev_option_load_default ;; mret (option_load_default_result E).

Definition option_load_file (fp : FILE) : M Z :=
  call (ev_option_load_file fp) ;; mret (option_load_file_result E).

(** [slimcache_tev[i]] *)
Definition read_tev (i : nat) : M (option timeout_event) :=
  fun w => Returned (default None (slimcache_tev w !! i)) w.

(** [__atomic_store_n(&worker_processor.running, v, mo)] *)
Definition atomic_store_running (v : bool) (mo : memorder) : M unit :=
  call (ev_atomic_store_n Addr_worker_processor_running v mo) ;;
  modify (set_running v).

Definition _shutdown (signo : Z) : M unit :=
  call (log_stderr "_shutdown received signal %d" [VInt signo]) ;;
  atomic_store_running false ATOMIC_RELEASE ;;
  call ev_core_destroy ;;
  for_range DLOG_TIMEOUT_EV MAX_TIMEOUT_EV (fun i =>
    tev ← read_tev i;
    call (ev_core_admin_unregister tev)) ;;
  exit EX_OK.

Definition run_sig_fn (f : sig_fn) (signo : Z) : M unit :=
  match f with Fn_shutdown => _shutdown signo end.

(** Delivery of [signo]: the installed handler runs; with none installed the
    default disposition ends the process. *)
Definition deliver (signo : Z) : M unit := fun w =>
  match list_find (fun p => p.1 = signo) (signal_handlers w) with
  | Some (_, (_, f)) => run_sig_fn f signo w
  | None => Killed signo w
  end.

(** [core_run(&worker_processor, &worker_processor.running)] is outside
    main.c; the environment says how the call ends.  A run receives SIGTERM
    here, while [core_run] serves; what the handler does from any other
    state is given by [deliver] and [_shutdown], which are functions of the
    state. *)
Definition core_run (processor flag : addr) : M unit :=
  call (ev_core_run processor flag) ;;
  (match core_run_behaviour E with
   | CoreReturns => mret tt
   | CoreServes => Serving
   | CoreSigterm => deliver SIGTERM
   end : M unit).

(** The tail of [setup] after the label [error]. *)
Definition setup_error (fname : option string) : M unit :=
  match fname with
  | Some f => call (ev_remove_pidfile f)
  | None => mret tt
  end ;;
  (* since we registered teardown with atexit, it'll be called upon exit *)
  exit EX_CONFIG.

Definition setup : M unit :=
  let fname : option string := None in
  r ← atexit Fn_teardown;
  when (bool_decide (r ≠ 0)) (
    call (log_stderr "cannot register teardown procedure with atexit()" []) ;;
    exit EX_OSERR) ;;
  r ← signal_override SIGTERM "perform shutdown" 0 0 Fn_shutdown;
  when (bool_decide (r < 0)) (
    call (log_stderr "cannot override signal" []) ;;
    exit EX_OSERR) ;;

  (* Setup logging first *)
  call (module_setup m_log) ;;
  r ← debug_setup;
  when (bool_decide (r < 0)) (
    call (log_stderr "debug log setup failed" []) ;;
    setup_error fname) ;;

  (* setup top-level application options *)
  when (opt_daemonize E) (call ev_daemonize) ;;
  let fname := opt_pid_filename E in
  match fname with
  | Some f => call (ev_create_pidfile f)
  | None => mret tt
  end ;;

  (* setup library modules *)
  call (module_setup m_buf) ;;
  call (module_setup m_dbuf) ;;
  call (module_setup m_event) ;;
  call (module_setup m_sockio) ;;
  call (module_setup m_tcp) ;;
  call (module_setup m_timing_wheel) ;;

  (* setup pelikan modules *)
  call (module_setup m_time) ;;
  call (module_setup m_procinfo) ;;
  call (module_setup m_request) ;;
  call (module_setup m_response) ;;
  call (module_setup m_parse) ;;
  call (module_setup m_compose) ;;
  call (module_setup m_klog) ;;
  call (module_setup m_cuckoo) ;;
  call (module_setup m_process) ;;
  call (module_setup m_admin_process) ;;
  call (module_setup m_core_admin) ;;
  call (module_setup m_core_server) ;;
  call (module_setup m_core_worker) ;;

  (* adding recurring events to maintenance/admin thread *)
  let intvl := opt_dlog_intvl E in
  t ← core_admin_register intvl debug_log_flush;
  modify (set_tev DLOG_TIMEOUT_EV t) ;;
  when (bool_decide (t = None)) (
    call (log_stderr "Could not register timed event to flush debug log" []) ;;
    setup_error fname) ;;

  let intvl := opt_klog_intvl E in
  t ← core_admin_register intvl klog_flush;
  modify (set_tev KLOG_TIMEOUT_EV t) ;;
  when (bool_decide (t = None)) (
    call (log_error "Could not register timed event to flush command log") ;;
    setup_error fname) ;;

  mret tt.

(** [main(argc, argv)], with [argc] the length of [argv]. *)
Definition main (argv : list string) : M unit :=
  let argc : Z := Z.of_nat (length argv) in
  let status := CC_OK in
  let fp : option FILE := None in

  when (bool_decide (argc > 2)) (
    show_usage ;;
    exit EX_USAGE) ;;

  when (bool_decide (argc = 1)) (
    call (log_stderr "launching server with default values." [])) ;;

  fp ← (if bool_decide (argc = 2) then
          let argv1 := default "" (argv !! 1%nat) in
          when (strcmp_eq argv1 "-h" || strcmp_eq argv1 "--help") (
            show_usage ;;
            exit EX_OK) ;;
          when (strcmp_eq argv1 "-v" || strcmp_eq argv1 "--version") (
            call ev_show_version ;;
            exit EX_OK) ;;
          when (strcmp_eq argv1 "-c" || strcmp_eq argv1 "--config") (
            call ev_option_describe_all ;;
            exit EX_OK) ;;
          when (strcmp_eq argv1 "-s" || strcmp_eq argv1 "--stats") (
            call ev_metric_describe_all ;;
            exit EX_OK) ;;
          fp ← fopen argv1 "r";
          when (bool_decide (fp = None)) (
            call (log_stderr "cannot open config: incorrect path or doesn't exist" []) ;;
            exit EX_DATAERR) ;;
          mret fp
        else mret fp);

  r ← option_load_default;
  when (bool_decide (r ≠ CC_OK)) (
    call (log_stderr "failed to load default option values" []) ;;
    exit EX_CONFIG) ;;

  status ← match fp with
           | Some f =>
               call (log_stderr "load config from %s" [VStr (default "" (argv !! 1%nat))]) ;;
               status ← option_load_file f;
               call (ev_fclose f) ;;
               mret status
           | None => mret status
           end;
  when (bool_decide (status ≠ CC_OK)) (
    call (log_stderr "failed to load config" []) ;;
    exit EX_DATAERR) ;;

  setup ;;
  call ev_option_print_all ;;

  core_run Addr_worker_processor Addr_worker_processor_running ;;

  exit EX_OK.

(** A run of the process: [main] from the static initial state. *)
Definition run (argv : list string) : outcome unit := main argv initial_world.

End Program.

(** ** The pieces of a run

    The calls of a run, grouped by the stretch of code that makes them;
    [run_cases] below ties them to [main]. *)

Definition usage_events : list event :=
  trace (final_world (show_usage initial_world)).

Definition teardown_events : list event :=
  trace (final_world (teardown initial_world)).

(** What [_shutdown] calls before it calls [exit]. *)
Definition shutdown_events (signo : Z) (tevs : list (option timeout_event))
    : list event :=
  [log_stderr "_shutdown received signal %d" [VInt signo];
   ev_atomic_store_n Addr_worker_processor_running false ATOMIC_RELEASE;
   ev_core_destroy] ++ map ev_core_admin_unregister tevs.

Definition option_flags : list string :=
  ["-h"; "--help"; "-v"; "--version"; "-c"; "--config"; "-s"; "--stats"].

(** [setup] up to and including [debug_setup]. *)
Definition setup_head : list event :=
  [ev_atexit Fn_teardown;
   ev_signal_override SIGTERM "perform shutdown" 0 0 Fn_shutdown;
   module_setup m_log; module_setup m_debug].

(** The top-level application options. *)
Definition app_events (E : env) : list event :=
  (if opt_daemonize E then [ev_daemonize] else []) ++
  match opt_pid_filename E with Some f => [ev_create_pidfile f] | None => [] end.

(** The library modules and the pelikan modules. *)
Definition module_events : list event :=
  map module_setup
    [m_buf; m_dbuf; m_event; m_sockio; m_tcp; m_timing_wheel;
     m_time; m_procinfo; m_request; m_response; m_parse; m_compose;
     m_klog; m_cuckoo; m_process; m_admin_process;
     m_core_admin; m_core_server; m_core_worker].

(** What the label [error] of [setup] calls before [exit]. *)
Definition error_events (fname : option string) : list event :=
  match fname with Some f => [ev_remove_pidfile f] | None => [] end.

Definition dlog_tev (E : env) : option timeout_event :=
  core_admin_register_result E (opt_dlog_intvl E) debug_log_flush.
Definition klog_tev (E : env) : option timeout_event :=
  core_admin_register_result E (opt_klog_intvl E) klog_flush.

(** A state of the process by its fields. *)
Definition world_of (run : bool) (tevs : list (option timeout_event))
    (fns : list atexit_fn) (hs : list (Z * sig_fn)) (tr : list event) : world :=
  {| worker_processor :=
       {| dp_read := slimcache_process_read;
          dp_write := slimcache_process_write;
          dp_error := slimcache_process_error;
          running := run |};
     slimcache_tev := tevs;
     atexit_registered := fns;
     signal_handlers := hs;
     trace := tr |}.

(** [argv[1]] *)
Definition argv1 (argv : list string) : string := default "" (argv !! 1%nat).

(** The calls of [main] before [option_load_default], on a command line
    that is not answered on the spot. *)
Definition cmd_events (argv : list string) : list event :=
  match argv with
  | [_] => [log_stderr "launching server with default values." []]
  | [_; a] => [ev_fopen a "r"]
  | _ => []
  end.

(** The local [fp] of [main] once the command line is read. *)
Definition config_file (E : env) (argv : list string) : option FILE :=
  match argv with
  | [_; a] => fopen_result E a
  | _ => None
  end.

(** The calls of [main] up to the call of [setup]. *)
Definition load_events (E : env) (argv : list string) : list event :=
  cmd_events argv ++ [ev_option_load_default] ++
  match config_file E argv with
  | Some f => [log_stderr "load config from %s" [VStr (argv1 argv)];
               ev_option_load_file f; ev_fclose f]
  | None => []
  end.

(** The calls of [setup] from its first line to the two registrations. *)
Definition setup_events (E : env) : list event :=
  setup_head ++ app_events E ++ module_events ++
  [ev_core_admin_register (opt_dlog_intvl E) debug_log_flush;
   ev_core_admin_register (opt_klog_intvl E) klog_flush].

(** The command line asks for a server: no more than one argument, and the
    argument, if any, is a file that opens. *)
Definition proceeds (E : env) (argv : list string) : Prop :=
  (length argv <= 1)%nat \/
  exists p a, argv = [p; a] /\ (a ∉ option_flags) /\ is_Some (fopen_result E a).

(** The options are loaded: [main] reaches the call of [setup]. *)
Definition loaded (E : env) (argv : list string) : Prop :=
  proceeds E argv /\
  option_load_default_result E = CC_OK /\
  (is_Some (config_file E argv) -> option_load_file_result E = CC_OK).

(** [setup] returns: [main] reaches the call of [core_run]. *)
Definition set_up (E : env) (argv : list string) : Prop :=
  loaded E argv /\
  atexit_result E = 0 /\
  0 <= signal_override_result E /\
  0 <= debug_setup_result E /\
  is_Some (dlog_tev E) /\
  is_Some (klog_tev E).

Definition handlers_set : list (Z * sig_fn) := [(SIGTERM, Fn_shutdown)].

(** Every path through [main], with the state it ends in. *)
Inductive run_path (E : env) (argv : list string) : outcome unit -> Prop :=
| path_usage :
    (2 < length argv)%nat ->
    run_path E argv
      (Exited EX_USAGE
         (world_of true [None; None] [] [] (usage_events ++ [ev_exit EX_USAGE])))
| path_help p a :
    argv = [p; a] -> a = "-h" \/ a = "--help" ->
    run_path E argv
      (Exited EX_OK
         (world_of true [None; None] [] [] (usage_events ++ [ev_exit EX_OK])))
| path_version p a :
    argv = [p; a] -> a = "-v" \/ a = "--version" ->
    run_path E argv
      (Exited EX_OK
         (world_of true [None; None] [] [] [ev_show_version; ev_exit EX_OK]))
| path_config p a :
    argv = [p; a] -> a = "-c" \/ a = "--config" ->
    run_path E argv
      (Exited EX_OK
         (world_of true [None; None] [] [] [ev_option_describe_all; ev_exit EX_OK]))
| path_stats p a :
    argv = [p; a] -> a = "-s" \/ a = "--stats" ->
    run_path E argv
      (Exited EX_OK
         (world_of true [None; None] [] [] [ev_metric_describe_all; ev_exit EX_OK]))
| path_fopen_fails p a :
    argv = [p; a] -> a ∉ option_flags -> fopen_result E a = None ->
    run_path E argv
      (Exited EX_DATAERR
         (world_of true [None; None] [] []
            [ev_fopen a "r";
             log_stderr "cannot open config: incorrect path or doesn't exist" [];
             ev_exit EX_DATAERR]))
| path_default_fails :
    proceeds E argv ->
    option_load_default_result E ≠ CC_OK ->
    run_path E argv
      (Exited EX_CONFIG
         (world_of true [None; None] [] []
            (cmd_events argv ++
             [ev_option_load_default;
              log_stderr "failed to load default option values" [];
              ev_exit EX_CONFIG])))
| path_file_fails :
    proceeds E argv ->
    option_load_default_result E = CC_OK ->
    is_Some (config_file E argv) ->
    option_load_file_result E ≠ CC_OK ->
    run_path E argv
      (Exited EX_DATAERR
         (world_of true [None; None] [] []
            (load_events E argv ++
             [log_stderr "failed to load config" [];
              ev_exit EX_DATAERR])))
| path_atexit_fails :
    loaded E argv ->
    atexit_result E ≠ 0 ->
    run_path E argv
      (Exited EX_OSERR
         (world_of true [None; None] [] []
            (load_events E argv ++
             [ev_atexit Fn_teardown;
              log_stderr "cannot register teardown procedure with atexit()" [];
              ev_exit EX_OSERR])))
| path_signal_fails :
    loaded E argv ->
    atexit_result E = 0 ->
    signal_override_result E < 0 ->
    run_path E argv
      (Exited EX_OSERR
         (world_of true [None; None] [Fn_teardown] []
            (load_events E argv ++
             [ev_atexit Fn_teardown;
              ev_signal_override SIGTERM "perform shutdown" 0 0 Fn_shutdown;
              log_stderr "cannot override signal" [];
              ev_exit EX_OSERR] ++ teardown_events)))
| path_debug_fails :
    loaded E argv ->
    atexit_result E = 0 ->
    0 <= signal_override_result E ->
    debug_setup_result E < 0 ->
    run_path E argv
      (Exited EX_CONFIG
         (world_of true [None; None] [Fn_teardown] handlers_set
            (load_events E argv ++ setup_head ++
             [log_stderr "debug log setup failed" []; ev_exit EX_CONFIG] ++
             teardown_events)))
| path_dlog_fails :
    loaded E argv ->
    atexit_result E = 0 ->
    0 <= signal_override_result E ->
    0 <= debug_setup_result E ->
    dlog_tev E = None ->
    run_path E argv
      (Exited EX_CONFIG
         (world_of true [None; None] [Fn_teardown] handlers_set
            (load_events E argv ++ setup_head ++ app_events E ++ module_events ++
             [ev_core_admin_register (opt_dlog_intvl E) debug_log_flush;
              log_stderr "Could not register timed event to flush debug log" []] ++
             error_events (opt_pid_filename E) ++
             [ev_exit EX_CONFIG] ++ teardown_events)))
| path_klog_fails :
    loaded E argv ->
    atexit_result E = 0 ->
    0 <= signal_override_result E ->
    0 <= debug_setup_result E ->
    is_Some (dlog_tev E) ->
    klog_tev E = None ->
    run_path E argv
      (Exited EX_CONFIG
         (world_of true [dlog_tev E; None] [Fn_teardown] handlers_set
            (load_events E argv ++ setup_events E ++
             [log_error "Could not register timed event to flush command log"] ++
             error_events (opt_pid_filename E) ++
             [ev_exit EX_CONFIG] ++ teardown_events)))
| path_core_returns :
    set_up E argv ->
    core_run_behaviour E = CoreReturns ->
    run_path E argv
      (Exited EX_OK
         (world_of true [dlog_tev E; klog_tev E] [Fn_teardown] handlers_set
            (load_events E argv ++ setup_events E ++
             [ev_option_print_all;
              ev_core_run Addr_worker_processor Addr_worker_processor_running;
              ev_exit EX_OK] ++ teardown_events)))
| path_core_serves :
    set_up E argv ->
    core_run_behaviour E = CoreServes ->
    run_path E argv
      (Serving
         (world_of true [dlog_tev E; klog_tev E] [Fn_teardown] handlers_set
            (load_events E argv ++ setup_events E ++
             [ev_option_print_all;
              ev_core_run Addr_worker_processor Addr_worker_processor_running])))
| path_sigterm :
    set_up E argv ->
    core_run_behaviour E = CoreSigterm ->
    run_path E argv
      (Exited EX_OK
         (world_of false [dlog_tev E; klog_tev E] [Fn_teardown] handlers_set
            (load_events E argv ++ setup_events E ++
             [ev_option_print_all;
              ev_core_run Addr_worker_processor Addr_worker_processor_running] ++
             shutdown_events SIGTERM [dlog_tev E; klog_tev E] ++
             [ev_exit EX_OK] ++ teardown_events))).

(** ** Observations on traces *)

(** The calls after the first call of [core_run]. *)
Fixpoint after_core_run (tr : list event) : option (list event) :=
  match tr with
  | [] => None
  | ev_core_run _ _ :: tr' => Some tr'
  | _ :: tr' => after_core_run tr'
  end.

(** The call is the call of [core_run]. *)
Definition is_core_run (e : event) : bool :=
  match e with ev_core_run _ _ => true | _ => false end.

(** The exit statuses passed to [exit] in a trace. *)
Definition exit_statuses (tr : list event) : list Z :=
  omap (fun e => match e with ev_exit st => Some st | _ => None end) tr.

(** What the functions registered with [atexit] call when [exit] runs them. *)
Definition atexit_events (fns : list atexit_fn) : list event :=
  flat_map (fun f => match f with Fn_teardown => teardown_events end) fns.

(** [slimcache_tev[0]], ..., [slimcache_tev[MAX_TIMEOUT_EV - 1]] *)
Definition tev_entries (w : world) : list (option timeout_event) :=
  map (fun i => default None (slimcache_tev w !! i)) (seq 0 MAX_TIMEOUT_EV).

(** An environment in which every call succeeds and SIGTERM arrives while
    [core_run] serves. *)
Definition env_ok : env :=
  {| atexit_result := 0; signal_override_result := 0; debug_setup_result := 0;
     opt_daemonize := true; opt_pid_filename := Some "slimcache.pid";
     opt_dlog_intvl := 500; opt_klog_intvl := 100;
     core_admin_register_result := fun _ cb =>
       match cb with debug_log_flush => Some 1%nat | klog_flush => Some 2%nat end;
     fopen_result := fun _ => Some 7%nat;
     option_load_default_result := CC_OK; option_load_file_result := CC_OK;
     core_run_behaviour := CoreSigterm |}.

(** Calls that read the configuration, set a module up, serve. *)
Definition loads_options (e : event) : bool :=
  match e with
  | ev_fopen _ _ | ev_option_load_default | ev_option_load_file _ => true
  | _ => false
  end.

Definition is_module_setup (e : event) : bool :=
  match e with module_setup _ => true | _ => false end.

(** The pid files created and removed in a trace. *)
Definition pidfiles_created (tr : list event) : list string :=
  omap (fun e => match e with ev_create_pidfile f => Some f | _ => None end) tr.

Definition pidfiles_removed (tr : list event) : list string :=
  omap (fun e => match e with ev_remove_pidfile f => Some f | _ => None end) tr.

(** [setup] reaches the label [error]: teardown and the handler are
    registered, and [debug_setup] or one of the two registrations fails. *)
Definition setup_error_path (E : env) : Prop :=
  atexit_result E = 0 /\ 0 <= signal_override_result E /\
  (debug_setup_result E < 0 \/ dlog_tev E = None \/ klog_tev E = None).

(** The fatal failures of start-up: the calls of [main] and [setup] whose
    failure is tested and answered with [exit]. *)
Inductive failure :=
| F_config_path      (* fopen(argv[1], "r") == NULL *)
| F_load_default     (* option_load_default(...) != CC_OK *)
| F_load_file        (* option_load_file(...) != CC_OK *)
| F_atexit           (* atexit(teardown) != 0 *)
| F_signal_override  (* signal_override(SIGTERM, ...) < 0 *)
| F_debug_setup      (* debug_setup(...) < 0 *)
| F_dlog_event       (* core_admin_register(intvl, debug_log_flush, NULL) == NULL *)
| F_klog_event.      (* core_admin_register(intvl, klog_flush, NULL) == NULL *)

(** The call [e] is the call of failure [f] and its answer is the failure. *)
Definition fails_at (E : env) (f : failure) (e : event) : bool :=
  match f, e with
  | F_config_path, ev_fopen a _ => bool_decide (fopen_result E a = None)
  | F_load_default, ev_option_load_default =>
      bool_decide (option_load_default_result E ≠ CC_OK)
  | F_load_file, ev_option_load_file _ =>
      bool_decide (option_load_file_result E ≠ CC_OK)
  | F_atexit, ev_atexit _ => bool_decide (atexit_result E ≠ 0)
  | F_signal_override, ev_signal_override _ _ _ _ _ =>
      bool_decide (signal_override_result E < 0)
  | F_debug_setup, module_setup m_debug =>
      bool_decide (debug_setup_result E < 0)
  | F_dlog_event, ev_core_admin_register i debug_log_flush =>
      bool_decide (core_admin_register_result E i debug_log_flush = None)
  | F_klog_event, ev_core_admin_register i klog_flush =>
      bool_decide (core_admin_register_result E i klog_flush = None)
  | _, _ => false
  end.

(** Failure [f] happens in the trace. *)
Definition occurs (E : env) (tr : list event) (f : failure) : Prop :=
  existsb (fails_at E f) tr = true.

(** The classes of failure that <sysexits.h> tells apart, and their status. *)
Inductive failure_class := OsError | ConfigError | DataError.

Definition class_of (f : failure) : failure_class :=
  match f with
  | F_atexit | F_signal_override => OsError
  | F_load_default | F_debug_setup | F_dlog_event | F_klog_event => ConfigError
  | F_config_path | F_load_file => DataError
  end.

Definition class_status (c : failure_class) : Z :=
  match c with
  | OsError => EX_OSERR
  | ConfigError => EX_CONFIG
  | DataError => EX_DATAERR
  end.

(** The modules set up and torn down in a trace, in order. *)
Definition acquired (tr : list event) : list module_id :=
  omap (fun e => match e with module_setup m => Some m | _ => None end) tr.

Definition released (tr : list event) : list module_id :=
  omap (fun e => match e with module_teardown m => Some m | _ => None end) tr.

(** As [env_ok], with [core_run] returning. *)
Definition env_returns : env :=
  {| atexit_result := 0; signal_override_result := 0; debug_setup_result := 0;
     opt_daemonize := true; opt_pid_filename := Some "slimcache.pid";
     opt_dlog_intvl := 500; opt_klog_intvl := 100;
     core_admin_register_result := fun _ cb =>
       match cb with debug_log_flush => Some 1%nat | klog_flush => Some 2%nat end;
     fopen_result := fun _ => Some 7%nat;
     option_load_default_result := CC_OK; option_load_file_result := CC_OK;
     core_run_behaviour := CoreReturns |}.

(** As [env_ok], with the registration of the command-log flush failing. *)
Definition env_klog_fails : env :=
  {| atexit_result := 0; signal_override_result := 0; debug_setup_result := 0;
     opt_daemonize := true; opt_pid_filename := Some "slimcache.pid";
     opt_dlog_intvl := 500; opt_klog_intvl := 100;
     core_admin_register_result := fun _ cb =>
       match cb with debug_log_flush => Some 1%nat | klog_flush => None end;
     fopen_result := fun _ => Some 7%nat;
     option_load_default_result := CC_OK; option_load_file_result := CC_OK;
     core_run_behaviour := CoreSigterm |}.

(** The timed events registered in a trace: the arguments of the calls,
    and the handles the calls returned. *)
Definition registrations (tr : list event) : list (Z * timeout_cb) :=
  omap (fun e => match e with
                 | ev_core_admin_register i cb => Some (i, cb)
                 | _ => None
                 end) tr.

Definition registered (E : env) (tr : list event) : list timeout_event :=
  omap (fun ic => core_admin_register_result E ic.1 ic.2) (registrations tr).

(** The arguments of the calls of [core_admin_unregister] in a trace. *)
Definition unregistered (tr : list event) : list (option timeout_event) :=
  omap (fun e => match e with
                 | ev_core_admin_unregister t => Some t
                 | _ => None
                 end) tr.

(** C2 as the claim states it: whenever the process exits, every timed
    event that was registered has been unregistered. *)
Definition unregistered_at_exit (E : env) (argv : list string) : Prop :=
  forall st, exit_status (run E argv) = Some st ->
  forall t, t ∈ registered E (trace (final_world (run E argv))) ->
            Some t ∈ unregistered (trace (final_world (run E argv))).

(** The periodic callbacks of the admin thread that the specification
    lists, and the one each callback of main.c stands for. *)
Inductive periodic_callback := ExpirationSweep | CommandLogFlush | DebugLogFlush.

Definition callback_role (cb : timeout_cb) : periodic_callback :=
  match cb with
  | debug_log_flush => DebugLogFlush
  | klog_flush => CommandLogFlush
  end.

(** C3 as the claim states it: [setup] registers a callback for each of
    the three. *)
Definition registers_all_listed (E : env) (argv : list string) : Prop :=
  forall role, exists i cb,
    (i, cb) ∈ registrations (trace (final_world (run E argv))) /\
    callback_role cb = role.

(** ** The store behind the requests

    cuckoo.c, the table that [cuckoo_setup] creates and the worker threads
    serve from, is not among the sources; main.c only sets it up and tears
    it down. *)

Module CuckooStore.

#[global] Instance byte_eq_dec : EqDecision byte := byte_eq_dec.

Abbreviation bytes := (list byte).

(** Modelled from the spec: the Item of section 3 (cuckoo.c is missing):
    key, value, flags and absolute expire time. *)
Record item := Item {
  key : bytes;
  value : bytes;
  flags : Z;
  expire : Z
}.

#[global] Instance item_eq_dec : EqDecision item.
Proof. solve_decision. Defined.

(** Modelled from the spec: the Table of section 3 (cuckoo.c is missing),
    an array of Slots of fixed capacity, each empty or holding one Item. *)
Abbreviation table := (list (option item)).

(** Modelled from the spec: the two outcomes section 4.1 allows when the
    displacement bound is exhausted (cuckoo.c is missing). *)
Inductive policy := RejectFull | EvictVictim.

(** Modelled from the spec: what the configuration collaborator of section
    6 supplies to the store (cuckoo.c is missing): capacity, the k hash
    functions, the size maxima, the displacement bound and the policy. *)
Record config := {
  capacity : nat;
  hashes : list (bytes -> nat);
  max_key_len : nat;
  max_val_len : nat;
  max_displace : nat;
  on_exhausted : policy
}.

(** Modelled from the spec: the results of [set] in section 4.1 (cuckoo.c
    is missing); [Stored] carries the key of the victim, if one was
    evicted to make room. *)
Inductive set_result := Stored (evicted : option bytes) | TooLarge | Full.

Section Store.
Variable C : config.

(** Modelled from the spec: the candidate slots of a key, one per hash
    function (cuckoo.c is missing). *)
Definition slots (k : bytes) : list nat :=
  map (fun h => (h k mod capacity C)%nat) (hashes C).

(** Modelled from the spec: an item is past its absolute expire time at
    and after that time (cuckoo.c is missing). *)
Definition live (now : Z) (it : item) : bool := bool_decide (now < expire it).

(** Modelled from the spec: lazy expiration (cuckoo.c is missing): a slot
    whose item is past its expire time is treated as empty. *)
Definition occupant (now : Z) (tbl : table) (s : nat) : option item :=
  match tbl !! s with
  | Some (Some it) => if live now it then Some it else None
  | _ => None
  end.

Definition holds_key (now : Z) (k : bytes) (tbl : table) (s : nat) : bool :=
  match occupant now tbl s with
  | Some it => bool_decide (key it = k)
  | None => false
  end.

Definition is_free (now : Z) (tbl : table) (s : nat) : bool :=
  match occupant now tbl s with
  | Some _ => false
  | None => true
  end.

(** Modelled from the spec: the probe of the candidate slots of a key for
    the key, and for an empty or expired slot (cuckoo.c is missing). *)
Definition find_key (now : Z) (k : bytes) (tbl : table) : option nat :=
  List.find (holds_key now k tbl) (slots k).

Definition find_free (now : Z) (k : bytes) (tbl : table) : option nat :=
  List.find (is_free now tbl) (slots k).

(** Modelled from the spec: [get(key) -> Item | NotFound] of section 4.1
    (cuckoo.c is missing); [None] is NotFound. *)
Definition get (now : Z) (k : bytes) (tbl : table) : option item :=
  match find_key now k tbl with
  | Some s => occupant now tbl s
  | None => None
  end.

(** Modelled from the spec: one of the alternate slots of an occupant
    (cuckoo.c is missing): its first candidate slot other than the one it
    is evicted from. *)
Definition alternate (k : bytes) (s : nat) : nat :=
  default s (List.find (fun a => negb (a =? s)%nat) (slots k)).

(** Modelled from the spec: bounded displacement (cuckoo.c is missing).
    The item goes into the slot; a live occupant is evicted into one of its
    alternate slots, cascading for at most [fuel] steps; [None] when the
    bound is exhausted. *)
Fixpoint displace (fuel : nat) (now : Z) (it : item) (s : nat) (tbl : table)
    : option table :=
  match occupant now tbl s with
  | None => Some (<[s := Some it]> tbl)
  | Some y =>
      match fuel with
      | O => None
      | S fuel' =>
          displace fuel' now y (alternate (key y) s) (<[s := Some it]> tbl)
      end
  end.

(** Modelled from the spec: [set(key, value, flags, ttl)] of section 4.1
    (cuckoo.c is missing).  The size limits are checked before the table is
    touched; a live item of the key is updated in place; otherwise the item
    goes to a candidate slot that is empty or expired; otherwise occupants
    are displaced, and when the bound is exhausted the insert is rejected
    as Full or the occupant of the first candidate slot is evicted,
    according to the policy. *)
Definition set (now : Z) (k v : bytes) (fl ttl : Z) (tbl : table)
    : set_result * table :=
  if bool_decide (max_key_len C < length k)%nat
     || bool_decide (max_val_len C < length v)%nat
  then (TooLarge, tbl)
  else
    let it := Item k v fl (now + ttl) in
    match find_key now k tbl with
    | Some s => (Stored None, <[s := Some it]> tbl)
    | None =>
        match find_free now k tbl with
        | Some s => (Stored None, <[s := Some it]> tbl)
        | None =>
            match slots k with
            | [] => (Full, tbl)
            | s :: _ =>
                match displace (max_displace C) now it s tbl with
                | Some tbl' => (Stored None, tbl')
                | None =>
                    match on_exhausted C with
                    | RejectFull => (Full, tbl)
                    | EvictVictim =>
                        (Stored (key <$> occupant now tbl s),
                         <[s := Some it]> tbl)
                    end
                end
            end
        end
    end.

(** Modelled from the spec: [delete] of section 4.1 (cuckoo.c is
    missing): the slot of the live item of the key is emptied. *)
Definition delete (now : Z) (k : bytes) (tbl : table) : bool * table :=
  match find_key now k tbl with
  | Some s => (true, <[s := None]> tbl)
  | None => (false, tbl)
  end.

(** The operations on the store, and a history of them with their times. *)
Inductive op :=
| OpGet (k : bytes)
| OpSet (k v : bytes) (fl ttl : Z)
| OpDelete (k : bytes).

(** The key an operation writes or removes. *)
Definition mutated (o : op) : option bytes :=
  match o with
  | OpGet _ => None
  | OpSet k _ _ _ | OpDelete k => Some k
  end.

(** One operation: the table after it and the key it evicted, if any. *)
Definition step (now : Z) (o : op) (tbl : table) : table * option bytes :=
  match o with
  | OpGet _ => (tbl, None)
  | OpSet k v fl ttl =>
      match set now k v fl ttl tbl with
      | (Stored ev, tbl') => (tbl', ev)
      | (_, tbl') => (tbl', None)
      end
  | OpDelete k => ((delete now k tbl).2, None)
  end.

Fixpoint run_ops (ops : list (Z * op)) (tbl : table) : table * list bytes :=
  match ops with
  | [] => (tbl, [])
  | (t, o) :: ops' =>
      let '(tbl1, ev) := step t o tbl in
      let '(tbl2, evs) := run_ops ops' tbl1 in
      (tbl2, option_list ev ++ evs)
  end.

(** The times of a history do not decrease, from [t0] to [t']. *)
Fixpoint timeline (t0 : Z) (ops : list (Z * op)) (t' : Z) : Prop :=
  match ops with
  | [] => t0 <= t'
  | (t, _) :: ops' => t0 <= t /\ timeline t ops' t'
  end.

(** The invariants of section 3: the table has its capacity, an item sits
    in one of the candidate slots of its key, and a live key occupies one
    slot. *)
Definition placed (tbl : table) : Prop :=
  forall s it, tbl !! s = Some (Some it) -> s ∈ slots (key it).

Definition unique (now : Z) (tbl : table) : Prop :=
  forall s1 s2 i1 i2,
    tbl !! s1 = Some (Some i1) -> tbl !! s2 = Some (Some i2) ->
    key i1 = key i2 -> live now i1 = true -> live now i2 = true -> s1 = s2.

Definition well_formed (now : Z) (tbl : table) : Prop :=
  (0 < capacity C)%nat /\ length tbl = capacity C /\
  placed tbl /\ unique now tbl.

(** The table holds the live item [it] under the key [k]. *)
Definition holds (now : Z) (tbl : table) (k : bytes) (it : item) : Prop :=
  exists s, tbl !! s = Some (Some it) /\ key it = k /\ live now it = true.

End Store.

(** A small store for examples: four slots, two hash functions. *)
Definition demo_config : config :=
  {| capacity := 4;
     hashes := [fun k => length k;
                fun k => match k with b :: _ => Byte.to_nat b | [] => O end];
     max_key_len := 8; max_val_len := 16;
     max_displace := 2; on_exhausted := EvictVictim |}.

Definition demo_history : list (Z * op) :=
  [(101, OpSet [x6b; x32] [x76] 5 60);
   (102, OpGet [x66; x6f; x6f]);
   (103, OpDelete [x7a])].

End CuckooStore.

(** ** Further observations on main.c *)

(** The usage message as the source writes it out: the arguments of the
    four calls of [log_stdout] in [show_usage] (lines 34 to 60), in order. *)
Definition usage_message : list string :=
  [ "Usage:" +:+ CRLF +:+
    "  pelikan_slimcache [option|config]" +:+ CRLF;
    "Description:" +:+ CRLF +:+
    "  pelikan_slimcache is one of the unified cache backends. " +:+ CRLF +:+
    "  It uses cuckoo hashing to efficiently store small key/val " +:+ CRLF +:+
    "  pairs. It speaks the memcached ASCII protocol and supports " +:+ CRLF +:+
    "  most ASCII memcached commands, except prepend/append. " +:+ CRLF +:+
    CRLF +:+
    "  The storage in slimcache is preallocated as a hash table. " +:+ CRLF +:+
    "  Therefore, maximum key+val size has to be specified when " +:+ CRLF +:+
    "  starting the service, and cannot be updated dynamically." +:+ CRLF;
    "Command-line options:" +:+ CRLF +:+
    "  -h, --help        show this message" +:+ CRLF +:+
    "  -v, --version     show version number" +:+ CRLF +:+
    "  -c, --config      list & describe all options in config" +:+ CRLF +:+
    "  -s, --stats       list & describe all metrics in stats" +:+ CRLF;
    "Example:" +:+ CRLF +:+
    "  pelikan_slimcache slimcache.conf" +:+ CRLF +:+ CRLF +:+
    "Sample config files can be found under the config dir." +:+ CRLF ].

(** What [main] calls for a flag before it exits: the body of the [if]
    that matches [argv[1]] first. *)
Definition flag_answer (a : string) : list event :=
  if strcmp_eq a "-h" || strcmp_eq a "--help"
  then map log_stdout usage_message
  else if strcmp_eq a "-v" || strcmp_eq a "--version" then [ev_show_version]
  else if strcmp_eq a "-c" || strcmp_eq a "--config" then [ev_option_describe_all]
  else [ev_metric_describe_all].

Definition is_daemonize (e : event) : bool :=
  match e with ev_daemonize => true | _ => false end.

Definition is_create_pidfile (e : event) : bool :=
  match e with ev_create_pidfile _ => true | _ => false end.

(** The calls after the first call that satisfies [P]. *)
Fixpoint events_after (P : event -> bool) (tr : list event)
    : option (list event) :=
  match tr with
  | [] => None
  | e :: tr' => if P e then Some tr' else events_after P tr'
  end.

(** Calls on the configuration file. *)
Definition reads_file (e : event) : bool :=
  match e with
  | ev_fopen _ _ | ev_option_load_file _ | ev_fclose _ => true
  | _ => false
  end.

(** The files closed in a trace. *)
Definition files_closed (tr : list event) : list FILE :=
  omap (fun e => match e with ev_fclose f => Some f | _ => None end) tr.

(** The exit statuses of <sysexits.h> that main.c uses. *)
Definition statuses_used : list Z :=
  [EX_OK; EX_USAGE; EX_DATAERR; EX_OSERR; EX_CONFIG].

(** The store that clears [worker_processor.running]. *)
Definition clears_running (e : event) : bool :=
  match e with
  | ev_atomic_store_n Addr_worker_processor_running false _ => true
  | _ => false
  end.

(** ** The ways serving ends *)

(** [E] with another answer of [core_run]. *)
Definition with_core (b : core_behaviour) (E : env) : env :=
  {| atexit_result := atexit_result E;
     signal_override_result := signal_override_result E;
     debug_setup_result := debug_setup_result E;
     opt_daemonize := opt_daemonize E;
     opt_pid_filename := opt_pid_filename E;
     opt_dlog_intvl := opt_dlog_intvl E;
     opt_klog_intvl := opt_klog_intvl E;
     core_admin_register_result := core_admin_register_result E;
     fopen_result := fopen_result E;
     option_load_default_result := option_load_default_result E;
     option_load_file_result := option_load_file_result E;
     core_run_behaviour := b |}.


(** Modelled from the spec: the ways the process ends once [core_run]
    serves (core.c, which holds [core_run] and the threads it starts, is not
    part of the sources).  main.c gives two, the return of [core_run] and
    the shutdown signal; section 7 of the specification gives a third, an
    irrecoverable OS-resource failure, which terminates the process from
    inside the core.  The status of that termination is not specified. *)
Inductive serving_end :=
| EndReturns
| EndSigterm
| EndResourceFailure (status : Z).

(** Modelled from the spec: the end of the process from the state [w] in
    which [core_run] serves.  The return leads to line 242 of [main], the
    signal to the handler installed in [w]; the resource failure ends the
    process where it occurs, and no code of main.c runs for it. *)
Definition end_of_serving (e : serving_end) : M unit :=
  match e with
  | EndReturns => exit EX_OK
  | EndSigterm => deliver SIGTERM
  | EndResourceFailure st => fun w => Exited st w
  end.

(** The ends that pass through code of main.c. *)
Definition through_main (e : serving_end) : bool :=
  match e with
  | EndReturns | EndSigterm => true
  | EndResourceFailure _ => false
  end.


(** * Proofs *)

(** ** Every run follows one of the paths *)

Ltac head_scrutinee t :=
  lazymatch t with
  | bool_decide _ => t
  | decide _ => t
  | String.eqb _ _ => t
  | fopen_result _ _ => t
  | core_admin_register_result _ _ _ => t
  | opt_daemonize _ => t
  | opt_pid_filename _ => t
  | core_run_behaviour _ => t
  | orb ?x _ => head_scrutinee x
  | match ?x with _ => _ end => head_scrutinee x
  | ?f _ => head_scrutinee f
  end.

Ltac exec_step :=
  lazymatch goal with
  | |- run_path _ _ ?t =>
      let h := head_scrutinee t in
      lazymatch h with
      | bool_decide ?P => destruct (bool_decide_reflect P)
      | String.eqb ?a ?b => destruct (String.eqb_spec a b)
      | _ => destruct h eqn:?
      end
  end; try (exfalso; (congruence || lia)); cbn.

Ltac use_eqns :=
  unfold load_events, setup_events, dlog_tev, klog_tev, config_file,
    app_events, error_events, cmd_events, argv1 in *; cbn in *;
  repeat match goal with H : ?x = _ |- context [?x] => rewrite H end.

Ltac side_cond :=
  use_eqns;
  lazymatch goal with
  | |- _ ∉ option_flags =>
      unfold option_flags; rewrite !not_elem_of_cons;
      repeat split; try assumption; apply not_elem_of_nil
  | |- is_Some _ => first [by eauto | by apply not_eq_None_Some]
  | |- _ = _ \/ _ = _ => auto
  | |- _ = Some _ => reflexivity
  | |- _ = None => reflexivity
  | |- is_Some _ -> _ => try (intros [? ?]; discriminate); intros _; unfold CC_OK in *; lia
  | |- _ => unfold CC_OK in *; first [reflexivity | assumption | lia | congruence]
  end.

Ltac proceeds_tac :=
  first [ left; cbn; lia
        | right; eexists _, _; split; [reflexivity | split; side_cond] ].
Ltac loaded_tac := split; [proceeds_tac | split; side_cond].
Ltac set_up_tac := split; [loaded_tac | repeat split; side_cond].

Ltac stage_cond :=
  lazymatch goal with
  | |- proceeds _ _ => proceeds_tac
  | |- loaded _ _ => loaded_tac
  | |- set_up _ _ => set_up_tac
  | |- _ => side_cond
  end.

Ltac unfold_program :=
  unfold run, main, setup, setup_error, atexit, signal_override, debug_setup,
    core_admin_register, core_run, fopen, option_load_default,
    option_load_file, deliver, _shutdown, run_sig_fn, exit, run_atexit_fn,
    teardown, show_usage, for_range, read_tev, atomic_store_running;
  unfold mbind, M_bind, mret, M_ret, when, call, modify, strcmp_eq.

Lemma run_path_eq E argv o o' :
  run_path E argv o' -> o' = o -> run_path E argv o.
Proof. by intros H <-. Qed.

Ltac leaf :=
  solve [eapply run_path_eq; [econstructor; stage_cond | use_eqns; reflexivity]].

Lemma run_cases E argv : run_path E argv (run E argv).
Proof.
  unfold_program.
  destruct argv as [|p [|a [|b rest]]]; cbn; repeat exec_step.
  all: try leaf.
Qed.

(** Case analysis on the path of a run: the outcome is replaced by the end
    state of each path and the pieces of its trace are made explicit. *)
Ltac break_stage :=
  repeat match goal with
  | H : set_up _ _ |- _ => destruct H as (? & ? & ? & ? & [? ?] & [? ?])
  | H : loaded _ _ |- _ => destruct H as (? & ? & ?)
  | H : proceeds _ ?argv |- _ =>
      destruct H as [H | (? & ? & ? & ? & [? ?])];
      [ first [ is_var argv; destruct argv as [|? [|? ?]];
                [| |cbn in H; exfalso; lia]
              | cbn in H; try (exfalso; lia) ]
      | simplify_eq ]
  | H : is_Some _ |- _ => destruct H as [? ?]
  end.

(** A flag of the command line is not a configuration file. *)
Ltac flag_contra :=
  match goal with
  | Hn : ?a ∉ option_flags, H : ?a = _ \/ ?a = _ |- _ =>
      exfalso; apply Hn; unfold option_flags; destruct H as [-> | ->];
      repeat first [apply list_elem_of_here | apply list_elem_of_further]
  end.

Ltac run_paths E argv :=
  generalize (run_cases E argv); generalize (run E argv);
  let o := fresh "o" in let Hp := fresh "Hp" in
  intros o Hp; destruct Hp.

(** Proves a fact about one of the pieces of a trace that depend on the
    environment, by cases on what the piece depends on. *)
Ltac piece :=
  intros;
  unfold load_events, setup_events, config_file, cmd_events, app_events,
    error_events, argv1, shutdown_events;
  repeat match goal with
  | |- context [match ?argv with [] => _ | _ :: _ => _ end] =>
      is_var argv; destruct argv as [|? [|? [|? ?]]]
  | |- context [fopen_result ?E ?a] => destruct (fopen_result E a)
  | |- context [opt_daemonize ?E] => destruct (opt_daemonize E)
  | |- context [opt_pid_filename ?E] => destruct (opt_pid_filename E)
  | |- context [match ?f with Some _ => _ | None => _ end] =>
      is_var f; destruct f
  end;
  cbn; try done; repeat constructor.

Lemma after_core_run_skip A B :
  existsb is_core_run A = false -> after_core_run (A ++ B) = after_core_run B.
Proof.
  induction A as [|e A IH]; [done|]. cbn [existsb].
  intros [He HA]%orb_false_iff. destruct e; try discriminate He; cbn; auto.
Qed.

Lemma no_core_run_load E argv : existsb is_core_run (load_events E argv) = false.
Proof. piece. Qed.
Lemma no_core_run_cmd argv : existsb is_core_run (cmd_events argv) = false.
Proof. piece. Qed.
Lemma no_core_run_setup E : existsb is_core_run (setup_events E) = false.
Proof. piece. Qed.
Lemma no_core_run_app E : existsb is_core_run (app_events E) = false.
Proof. piece. Qed.
Lemma no_core_run_error f : existsb is_core_run (error_events f) = false.
Proof. piece. Qed.

Lemma after_core_run_none tr :
  existsb is_core_run tr = false -> after_core_run tr = None.
Proof.
  induction tr as [|e tr IH]; [done|]. cbn [existsb].
  intros [He Htr]%orb_false_iff. destruct e; try discriminate He; cbn; auto.
Qed.

Ltac no_core_run :=
  repeat first
    [ progress cbn [existsb is_core_run orb]
    | rewrite existsb_app | rewrite no_core_run_load | rewrite no_core_run_cmd
    | rewrite no_core_run_setup | rewrite no_core_run_app
    | rewrite no_core_run_error ];
  reflexivity.

Ltac skip_pieces :=
  cbn [final_world trace world_of];
  rewrite ?(after_core_run_skip (load_events _ _)) by apply no_core_run_load;
  rewrite ?(after_core_run_skip (setup_events _)) by apply no_core_run_setup.

Lemma emits_emits tr1 tr2 w : emits tr2 (emits tr1 w) = emits (tr1 ++ tr2) w.
Proof. unfold emits; cbn. by rewrite app_assoc. Qed.

Lemma emits_nil w : emits [] w = w.
Proof. destruct w; unfold emits; cbn. by rewrite app_nil_r. Qed.

Lemma teardown_run w : teardown w = Returned tt (emits teardown_events w).
Proof.
  unfold teardown, mbind, M_bind, call, emit; cbn.
  rewrite !emits_emits. reflexivity.
Qed.

Lemma atexit_fns_run fns w :
  foldr (fun f k => run_atexit_fn f ;; k) (mret tt) fns w
  = Returned tt (emits (atexit_events fns) w).
Proof.
  revert w. induction fns as [|[] fns IH]; intros w.
  - cbn. by rewrite emits_nil.
  - cbn [foldr atexit_events flat_map run_atexit_fn].
    unfold mbind at 1, M_bind at 1. rewrite teardown_run, IH, emits_emits.
    reflexivity.
Qed.

Lemma exit_run (A : Type) st w :
  @exit A st w
  = Exited st (emits (ev_exit st :: atexit_events (atexit_registered w)) w).
Proof.
  unfold exit. rewrite atexit_fns_run. unfold emit.
  rewrite emits_emits. reflexivity.
Qed.

Lemma shutdown_run signo w :
  _shutdown signo w
  = Exited EX_OK
      (emits (shutdown_events signo (tev_entries w) ++
              ev_exit EX_OK :: atexit_events (atexit_registered w))
         (set_running false w)).
Proof.
  unfold _shutdown, atomic_store_running, for_range, read_tev.
  unfold mbind, M_bind, call, modify, emit; cbn.
  rewrite exit_run. unfold emits, set_running; cbn.
  rewrite <- !app_assoc. reflexivity.
Qed.

(** ** Runs on concrete inputs *)

Example run_with_config_file :
  exit_status (run env_ok ["pelikan_slimcache"; "slimcache.conf"]) = Some EX_OK /\
  firstn 5 (trace (final_world (run env_ok ["pelikan_slimcache"; "slimcache.conf"])))
  = [ev_fopen "slimcache.conf" "r"; ev_option_load_default;
     log_stderr "load config from %s" [VStr "slimcache.conf"];
     ev_option_load_file 7%nat; ev_fclose 7%nat].
Proof. split; reflexivity. Qed.

Example run_version :
  run env_ok ["pelikan_slimcache"; "--version"]
  = Exited EX_OK (world_of true [None; None] [] [] [ev_show_version; ev_exit EX_OK]).
Proof. reflexivity. Qed.

Example run_klog_registration_fails :
  exit_status (run env_klog_fails ["pelikan_slimcache"]) = Some EX_CONFIG /\
  slimcache_tev (final_world (run env_klog_fails ["pelikan_slimcache"]))
  = [Some 1%nat; None] /\
  pidfiles_removed (trace (final_world (run env_klog_fails ["pelikan_slimcache"])))
  = ["slimcache.pid"].
Proof. repeat split; reflexivity. Qed.

(** ** Claims *)

(** C1. When SIGTERM is received, the handler stores [false] into
    [worker_processor.running] with release order before it calls
    [core_destroy]; the flag starts [true], and its address is the one
    [main] hands to [core_run].  Stated in four parts: the handler from any
    state; the initial value; the address in every [core_run] call of every
    run; a run in which SIGTERM arrives during [core_run]. *)
Theorem C1_shutdown_clears_running_flag :
  (forall signo w, exists w' rest,
      _shutdown signo w = Exited EX_OK w' /\
      trace w' = trace w ++
        [log_stderr "_shutdown received signal %d" [VInt signo];
         ev_atomic_store_n Addr_worker_processor_running false ATOMIC_RELEASE;
         ev_core_destroy] ++ rest /\
      running (worker_processor w') = false) /\
  running (worker_processor initial_world) = true /\
  (forall E argv post,
      after_core_run (trace (final_world (run E argv))) = Some post ->
      exists pre,
        trace (final_world (run E argv)) =
        pre ++ ev_core_run Addr_worker_processor Addr_worker_processor_running
            :: post) /\
  (forall E argv post,
      after_core_run (trace (final_world (run E argv))) = Some post ->
      core_run_behaviour E = CoreSigterm ->
      running (worker_processor (final_world (run E argv))) = false /\
      exists rest,
        post =
        [log_stderr "_shutdown received signal %d" [VInt SIGTERM];
         ev_atomic_store_n Addr_worker_processor_running false ATOMIC_RELEASE;
         ev_core_destroy] ++ rest).
Proof.
  split; [|split; [reflexivity|split]].
  - intros signo w. eexists _, _. rewrite shutdown_run.
    split; [reflexivity|]. split; [|reflexivity].
    unfold shutdown_events. cbn [trace emits]. rewrite <- !app_assoc.
    reflexivity.
  - intros E argv post. run_paths E argv; skip_pieces;
      try (rewrite after_core_run_none by no_core_run; discriminate).
    all: cbn [app after_core_run]; intros [= <-];
      exists (load_events E argv ++ setup_events E ++ [ev_option_print_all]);
      rewrite <- !app_assoc; reflexivity.
  - intros E argv post. run_paths E argv; skip_pieces;
      try (rewrite after_core_run_none by no_core_run; discriminate).
    all: cbn [app after_core_run]; intros [= <-] HE; try congruence.
    split; [reflexivity|]. eexists. reflexivity.
Qed.

Lemma C1_witness :
  after_core_run (trace (final_world (run env_ok ["pelikan_slimcache"])))
  = Some (shutdown_events SIGTERM [Some 1%nat; Some 2%nat] ++
          ev_exit EX_OK :: teardown_events) /\
  core_run_behaviour env_ok = CoreSigterm /\
  running (worker_processor (final_world (run env_ok ["pelikan_slimcache"])))
  = false.
Proof.
  assert (Hpost :
    after_core_run (trace (final_world (run env_ok ["pelikan_slimcache"])))
    = Some (shutdown_events SIGTERM [Some 1%nat; Some 2%nat] ++
            ev_exit EX_OK :: teardown_events)) by (vm_compute; reflexivity).
  split; [exact Hpost|]. split; [reflexivity|].
  destruct C1_shutdown_clears_running_flag as (_ & _ & _ & H).
  exact (proj1 (H env_ok ["pelikan_slimcache"] _ Hpost eq_refl)).
Defined.




(** C8. With more than one command-line argument the program prints the
    usage message and calls [exit(EX_USAGE)]: the run consists of the four
    calls of [log_stdout] with the texts of the usage message, as written
    out in [usage_message], and of the exit, so no option is loaded, no
    module is set up and [core_run] is not called. *)
Theorem C8_usage_on_extra_arguments E argv :
  (2 < length argv)%nat ->
  exists w,
    run E argv = Exited EX_USAGE w /\
    trace w = map log_stdout usage_message ++ [ev_exit EX_USAGE] /\
    trace w = usage_events ++ [ev_exit EX_USAGE] /\
    Forall (fun e => exists text, e = log_stdout text) usage_events /\
    existsb loads_options (trace w) = false /\
    existsb is_module_setup (trace w) = false /\
    existsb is_core_run (trace w) = false.
Proof.
  intros Hargc. unfold run, main.
  rewrite (bool_decide_true (_ > 2)) by lia.
  eexists. split; [reflexivity|]. split; [reflexivity|].
  split; [reflexivity|].
  split; [repeat constructor; eexists; reflexivity|].
  repeat split; reflexivity.
Qed.

Lemma C8_witness :
  exit_status (run env_ok ["pelikan_slimcache"; "a.conf"; "b.conf"])
  = Some EX_USAGE.
Proof.
  destruct (C8_usage_on_extra_arguments env_ok
              ["pelikan_slimcache"; "a.conf"; "b.conf"]) as (w & -> & _).
  - cbn. lia.
  - reflexivity.
Defined.

(** C9. A single argument that is none of the eight flags is opened as the
    configuration file.  If it does not open, the run is the [fopen], the
    message and [exit(EX_DATAERR)], with no option loaded.  If it opens,
    [option_load_default] is called first; once the defaults are loaded the
    file is loaded on top of them and closed; a failure of that load ends
    the run with [exit(EX_DATAERR)] and no call of [setup], and a success
    goes on to [setup], whose first call is [atexit]. *)
Theorem C9_config_file_argument E p a :
  a ∉ option_flags ->
  match fopen_result E a with
  | None =>
      run E [p; a] =
      Exited EX_DATAERR
        (world_of true [None; None] [] []
           [ev_fopen a "r";
            log_stderr "cannot open config: incorrect path or doesn't exist" [];
            ev_exit EX_DATAERR])
  | Some f =>
      exists rest,
        trace (final_world (run E [p; a])) =
        ev_fopen a "r" :: ev_option_load_default :: rest /\
        (option_load_default_result E = CC_OK ->
         exists rest',
           rest = [log_stderr "load config from %s" [VStr a];
                   ev_option_load_file f; ev_fclose f] ++ rest' /\
           (option_load_file_result E ≠ CC_OK ->
            rest' = [log_stderr "failed to load config" []; ev_exit EX_DATAERR] /\
            exit_status (run E [p; a]) = Some EX_DATAERR) /\
           (option_load_file_result E = CC_OK ->
            exists rest'', rest' = ev_atexit Fn_teardown :: rest''))
  end.
Proof.
  intros Hflag. destruct (fopen_result E a) as [f|] eqn:Hf.
  all: run_paths E [p; a]; break_stage; simplify_eq; try flag_contra.
  all: try (cbn in *; lia).
  all: repeat match goal with
       | H : is_Some (config_file _ _) -> _ |- _ =>
           specialize (H ltac:(cbn; rewrite Hf; eauto))
       end.
  all: unfold load_events, config_file, cmd_events, argv1, setup_events,
         setup_head; cbn; rewrite ?Hf; cbn.
  all: try congruence.
  all: eexists; (split; [reflexivity|]); intros Hd; try congruence.
  all: eexists; (split; [reflexivity|]); split; intros Hfl; try congruence.
  all: try (split; reflexivity); try (eexists; reflexivity).
Qed.

Lemma C9_witness :
  exists rest,
    trace (final_world (run env_ok ["pelikan_slimcache"; "slimcache.conf"])) =
    ev_fopen "slimcache.conf" "r" :: ev_option_load_default :: rest.
Proof.
  assert (Hflag : "slimcache.conf" ∉ option_flags).
  { unfold option_flags. rewrite !not_elem_of_cons.
    repeat split; try discriminate. apply not_elem_of_nil. }
  destruct (C9_config_file_argument env_ok "pelikan_slimcache"
              "slimcache.conf" Hflag) as (rest & Hrest & _).
  exists rest. exact Hrest.
Defined.

Ltac norm_app := repeat first [rewrite <- app_assoc | progress cbn [app map]].

Ltac use_file_load :=
  repeat match goal with
  | H : is_Some (config_file ?E ?argv) -> _, H' : is_Some (config_file ?E ?argv) |- _ =>
      specialize (H H')
  | H : is_Some (config_file _ _) -> _, Hf : fopen_result _ _ = Some _ |- _ =>
      specialize (H ltac:(cbn; rewrite Hf; eauto))
  end.

(** Closes the paths that the hypotheses exclude. *)
Ltac contra :=
  exfalso; use_file_load; break_stage; simplify_eq; use_file_load;
  first [ flag_contra | cbn in *; unfold CC_OK in *; lia | congruence
        | cbn in *; congruence ].

Lemma no_pidfile_load E argv :
  pidfiles_created (load_events E argv) = [] /\
  pidfiles_removed (load_events E argv) = [].
Proof. piece. Qed.

Lemma pidfile_app E :
  pidfiles_created (app_events E) =
    match opt_pid_filename E with Some f => [f] | None => [] end /\
  pidfiles_removed (app_events E) = [].
Proof. piece. Qed.

(** C10. When [setup] leaves through the label [error], the process exits
    with [EX_CONFIG], and the calls just before [exit] are the removal of
    exactly the pid files created so far: a created pid file is removed
    before the exit, and with none created nothing is removed.  (A failure
    of [debug_setup] comes before the pid file is created.) *)
Theorem C10_pidfile_removed_on_setup_error E argv :
  loaded E argv -> setup_error_path E ->
  exists w pre post,
    run E argv = Exited EX_CONFIG w /\
    trace w = pre ++ map ev_remove_pidfile (pidfiles_created pre) ++
              ev_exit EX_CONFIG :: post /\
    pidfiles_removed pre = [] /\
    pidfiles_created post = [] /\ pidfiles_removed post = [] /\
    (debug_setup_result E < 0 -> pidfiles_created pre = []).
Proof.
  intros Hl (Hat & Hsig & Herr).
  run_paths E argv; try (destruct Herr as [?|[?|?]]; contra).
  all: destruct (no_pidfile_load E argv) as [Hc Hr], (pidfile_app E) as [Hc' Hr'].
  all: unfold pidfiles_created, pidfiles_removed, setup_events in *.
  - exists (world_of true [None; None] [Fn_teardown] handlers_set
             (load_events E argv ++ setup_head ++
              [log_stderr "debug log setup failed" []; ev_exit EX_CONFIG] ++
              teardown_events)),
      (load_events E argv ++ setup_head ++
       [log_stderr "debug log setup failed" []]), teardown_events.
    split; [reflexivity|]. rewrite !omap_app, Hc, Hr. cbn.
    rewrite <- !app_assoc. repeat split; reflexivity.
  - eexists _,
      (load_events E argv ++ setup_head ++ app_events E ++ module_events ++
       [ev_core_admin_register (opt_dlog_intvl E) debug_log_flush;
        log_stderr "Could not register timed event to flush debug log" []]),
      teardown_events.
    split; [reflexivity|]. rewrite !omap_app, Hc, Hr, Hc', Hr'.
    unfold error_events. destruct (opt_pid_filename E);
      cbn [trace world_of omap app map mbind option_bind];
      repeat split; try reflexivity; try (intros; lia); norm_app; reflexivity.
  - eexists _,
      (load_events E argv ++ (setup_head ++ app_events E ++ module_events ++
       [ev_core_admin_register (opt_dlog_intvl E) debug_log_flush;
        ev_core_admin_register (opt_klog_intvl E) klog_flush]) ++
       [log_error "Could not register timed event to flush command log"]),
      teardown_events.
    split; [reflexivity|]. rewrite !omap_app, Hc, Hr, Hc', Hr'.
    unfold error_events. destruct (opt_pid_filename E);
      cbn [trace world_of omap app map mbind option_bind];
      repeat split; try reflexivity; try (intros; lia); norm_app; reflexivity.
Qed.

(** Decides the tests on the answers of the callees from the context. *)
Ltac decide_tests :=
  unfold CC_OK, dlog_tev, klog_tev in *;
  repeat match goal with
  | |- context [bool_decide ?P] =>
      first [ rewrite (bool_decide_true P) by first [lia | congruence | done]
            | rewrite (bool_decide_false P) by first [lia | congruence | done] ]
  end.

Lemma no_failure_usage E f : existsb (fails_at E f) usage_events = false.
Proof. by destruct f. Qed.
Lemma no_failure_teardown E f : existsb (fails_at E f) teardown_events = false.
Proof. by destruct f. Qed.
Lemma no_failure_app E f : existsb (fails_at E f) (app_events E) = false.
Proof. destruct f; piece. Qed.
Lemma no_failure_modules E f : existsb (fails_at E f) module_events = false.
Proof. by destruct f. Qed.
Lemma no_failure_error E f o : existsb (fails_at E f) (error_events o) = false.
Proof. destruct f; piece. Qed.
Lemma no_failure_shutdown E f s l :
  existsb (fails_at E f) (shutdown_events s l) = false.
Proof.
  unfold shutdown_events. rewrite existsb_app.
  replace (existsb (fails_at E f) (map ev_core_admin_unregister l)) with false.
  - by destruct f.
  - induction l; [done|]. cbn. by destruct f.
Qed.
Lemma no_failure_cmd E f argv :
  proceeds E argv -> existsb (fails_at E f) (cmd_events argv) = false.
Proof.
  intros H. break_stage; destruct f; cbn; try done; decide_tests; done.
Qed.
Lemma no_failure_load E f argv :
  loaded E argv -> existsb (fails_at E f) (load_events E argv) = false.
Proof.
  intros H. break_stage; use_file_load; unfold load_events, config_file;
    cbn; repeat match goal with H : fopen_result _ _ = _ |- _ => rewrite H end;
    destruct f; cbn; try done; decide_tests; try done.
Qed.

Lemma class_status_facts f :
  class_status (class_of f) ≠ EX_OK /\
  class_status (class_of f) ∈ [EX_OSERR; EX_CONFIG; EX_DATAERR; EX_USAGE] /\
  (forall f', class_of f' ≠ class_of f ->
              class_status (class_of f') ≠ class_status (class_of f)).
Proof.
  split; [by destruct f|]. split.
  - destruct f; cbn;
      repeat first [apply list_elem_of_here | apply list_elem_of_further].
  - intros f'. destruct f, f'; cbn; intros Hne; try done.
Qed.

(** C4. Each fatal start-up failure (the config path does not open, the
    defaults or the file do not load, [atexit] or [signal_override] fails,
    [debug_setup] fails, one of the two timed events is not registered) ends
    the run by [exit] before any call of [core_run]; the status is not
    [EX_OK], is one of [EX_OSERR], [EX_CONFIG], [EX_DATAERR], [EX_USAGE],
    and is the status of the failure's class, different classes having
    different statuses. *)
Theorem C4_fatal_setup_failures E argv f :
  occurs E (trace (final_world (run E argv))) f ->
  exists w,
    run E argv = Exited (class_status (class_of f)) w /\
    existsb is_core_run (trace w) = false /\
    class_status (class_of f) ≠ EX_OK /\
    class_status (class_of f) ∈ [EX_OSERR; EX_CONFIG; EX_DATAERR; EX_USAGE] /\
    (forall f', class_of f' ≠ class_of f ->
                class_status (class_of f') ≠ class_status (class_of f)).
Proof.
  unfold occurs. run_paths E argv; cbn [trace final_world world_of].
  all: unfold setup_events, setup_head.
  all: rewrite ?existsb_app.
  all: rewrite ?no_failure_usage, ?no_failure_teardown, ?no_failure_app,
         ?no_failure_modules, ?no_failure_error, ?no_failure_shutdown.
  all: rewrite ?no_failure_load by first [assumption | by destruct H].
  all: rewrite ?no_failure_cmd by assumption.
  all: break_stage; simplify_eq.
  all: unfold load_events, config_file, cmd_events, argv1 in *;
    cbn [app] in *; try discriminate.
  all: repeat match goal with H : fopen_result _ _ = _ |- _ => rewrite H in * end.
  all: try discriminate.
  all: destruct f; cbn [existsb fails_at orb app]; decide_tests;
    cbn [orb]; try (intros; discriminate).
  all: intros _; (eexists; split; [reflexivity|]; split;
    [cbn [trace world_of]; no_core_run|apply class_status_facts]).
Qed.

Lemma C4_witness :
  exit_status (run env_klog_fails ["pelikan_slimcache"]) = Some EX_CONFIG.
Proof.
  destruct (C4_fatal_setup_failures env_klog_fails ["pelikan_slimcache"]
              F_klog_event) as (w & -> & _).
  - vm_compute. reflexivity.
  - reflexivity.
Defined.

Lemma C10_witness :
  exists w pre post,
    run env_klog_fails ["pelikan_slimcache"] = Exited EX_CONFIG w /\
    trace w = pre ++ map ev_remove_pidfile (pidfiles_created pre) ++
              ev_exit EX_CONFIG :: post /\
    pidfiles_removed pre = [] /\
    pidfiles_created post = [] /\ pidfiles_removed post = [] /\
    (debug_setup_result env_klog_fails < 0 -> pidfiles_created pre = []).
Proof.
  apply C10_pidfile_removed_on_setup_error.
  - split; [left; cbn; lia|]. split; [reflexivity|].
    intros [? [=]].
  - split; [reflexivity|]. split; [cbn; lia|]. right; right. reflexivity.
Defined.

Lemma acquired_load E argv :
  acquired (load_events E argv) = [] /\ released (load_events E argv) = [].
Proof. piece. Qed.
Lemma acquired_cmd argv :
  acquired (cmd_events argv) = [] /\ released (cmd_events argv) = [].
Proof. piece. Qed.
Lemma acquired_app E :
  acquired (app_events E) = [] /\ released (app_events E) = [].
Proof. piece. Qed.
Lemma acquired_error o :
  acquired (error_events o) = [] /\ released (error_events o) = [].
Proof. piece. Qed.

Ltac modules :=
  unfold acquired, released, setup_events, shutdown_events;
  cbn [trace world_of];
  repeat first
    [ rewrite omap_app
    | rewrite (proj1 (acquired_load _ _)) | rewrite (proj2 (acquired_load _ _))
    | rewrite (proj1 (acquired_cmd _)) | rewrite (proj2 (acquired_cmd _))
    | rewrite (proj1 (acquired_app _)) | rewrite (proj2 (acquired_app _))
    | rewrite (proj1 (acquired_error _)) | rewrite (proj2 (acquired_error _)) ].

(** C6. On every path that ends in [exit], the modules that were set up
    are torn down, after the call of [exit] and in the reverse of the order
    in which they were set up; and the order of [teardown] as a whole is
    the reverse of the order of [setup] as a whole. *)
Theorem C6_teardown_reverses_setup E argv st :
  exit_status (run E argv) = Some st ->
  released teardown_events = rev (acquired (setup_events E)) /\
  filter (fun m => m ∈ acquired (trace (final_world (run E argv))))
    (released (trace (final_world (run E argv))))
  = rev (acquired (trace (final_world (run E argv)))) /\
  (acquired (trace (final_world (run E argv))) ≠ [] ->
   exists pre,
     trace (final_world (run E argv)) = pre ++ ev_exit st :: teardown_events /\
     released pre = [] /\ acquired teardown_events = []).
Proof.
  run_paths E argv; cbn [exit_status final_world]; intros [= <-].
  all: split; [modules; reflexivity|].
  all: split; [modules; vm_compute; reflexivity|].
  all: intros Hne; try (exfalso; apply Hne; modules; reflexivity); clear Hne.
  all: cbn [trace world_of].
  - exists (load_events E argv ++ setup_head ++
            [log_stderr "debug log setup failed" []]).
    split; [norm_app; reflexivity|]. split; [modules|]; reflexivity.
  - exists (load_events E argv ++ setup_head ++ app_events E ++
            module_events ++
            [ev_core_admin_register (opt_dlog_intvl E) debug_log_flush;
             log_stderr "Could not register timed event to flush debug log" []] ++
            error_events (opt_pid_filename E)).
    split; [norm_app; reflexivity|]. split; [modules|]; reflexivity.
  - exists (load_events E argv ++ setup_events E ++
            [log_error "Could not register timed event to flush command log"] ++
            error_events (opt_pid_filename E)).
    split; [norm_app; reflexivity|]. split; [modules|]; reflexivity.
  - exists (load_events E argv ++ setup_events E ++
            [ev_option_print_all;
             ev_core_run Addr_worker_processor Addr_worker_processor_running]).
    split; [norm_app; reflexivity|]. split; [modules|]; reflexivity.
  - exists (load_events E argv ++ setup_events E ++
            [ev_option_print_all;
             ev_core_run Addr_worker_processor Addr_worker_processor_running] ++
            shutdown_events SIGTERM [dlog_tev E; klog_tev E]).
    split; [norm_app; reflexivity|]. split; [modules|]; reflexivity.
Qed.

Lemma C6_witness :
  filter (fun m => m ∈ acquired (trace (final_world (run env_ok ["pelikan_slimcache"]))))
    (released (trace (final_world (run env_ok ["pelikan_slimcache"]))))
  = rev (acquired (trace (final_world (run env_ok ["pelikan_slimcache"])))).
Proof.
  refine (proj1 (proj2 (C6_teardown_reverses_setup env_ok
                          ["pelikan_slimcache"] EX_OK _))).
  vm_compute. reflexivity.
Defined.

Lemma registrations_load E argv : registrations (load_events E argv) = [].
Proof. piece. Qed.
Lemma registrations_app E : registrations (app_events E) = [].
Proof. piece. Qed.
Lemma unregistered_load E argv : unregistered (load_events E argv) = [].
Proof. piece. Qed.
Lemma unregistered_app E : unregistered (app_events E) = [].
Proof. piece. Qed.

Lemma registrations_set_up E argv :
  set_up E argv ->
  registrations (trace (final_world (run E argv))) =
  [(opt_dlog_intvl E, debug_log_flush); (opt_klog_intvl E, klog_flush)] /\
  unregistered (trace (final_world (run E argv))) =
  match core_run_behaviour E with
  | CoreSigterm => [dlog_tev E; klog_tev E]
  | _ => []
  end.
Proof.
  intros Hs. run_paths E argv; try contra.
  all: cbn [final_world trace world_of].
  all: unfold registrations, unregistered, setup_events.
  all: rewrite !omap_app.
  all: fold (registrations (load_events E argv)) (registrations (app_events E))
         (unregistered (load_events E argv)) (unregistered (app_events E)).
  all: rewrite registrations_load, registrations_app, unregistered_load,
         unregistered_app.
  all: match goal with H : core_run_behaviour _ = _ |- _ => rewrite H end.
  all: split; reflexivity.
Qed.

(** C2, counterexample.  When [core_run] returns, [main] calls
    [exit(EX_OK)] with both timed events registered and neither
    unregistered. *)
Lemma C2_counterexample :
  exit_status (run env_returns ["pelikan_slimcache"]) = Some EX_OK /\
  registered env_returns
    (trace (final_world (run env_returns ["pelikan_slimcache"])))
  = [1%nat; 2%nat] /\
  unregistered (trace (final_world (run env_returns ["pelikan_slimcache"])))
  = [] /\
  ~ unregistered_at_exit env_returns ["pelikan_slimcache"].
Proof.
  split; [reflexivity|]. split; [reflexivity|]. split; [reflexivity|].
  intros H. specialize (H EX_OK eq_refl 1%nat).
  assert (Hin : 1%nat ∈ registered env_returns
            (trace (final_world (run env_returns ["pelikan_slimcache"]))))
    by (vm_compute; apply list_elem_of_here).
  apply H in Hin. vm_compute in Hin. inversion Hin.
Qed.

(** C2, amended.  When the process exits through the SIGTERM handler after
    [setup] has returned, the handler calls [core_admin_unregister] on the
    two registered timed events, the debug-log event and then the
    command-log event, after [core_destroy] and before [exit]. *)
Theorem C2_unregistered_on_shutdown E argv :
  set_up E argv -> core_run_behaviour E = CoreSigterm ->
  exists t0 t1 pre,
    exit_status (run E argv) = Some EX_OK /\
    registered E (trace (final_world (run E argv))) = [t0; t1] /\
    slimcache_tev (final_world (run E argv)) = [Some t0; Some t1] /\
    trace (final_world (run E argv)) =
      pre ++ [ev_core_destroy;
              ev_core_admin_unregister (Some t0);
              ev_core_admin_unregister (Some t1);
              ev_exit EX_OK] ++ teardown_events /\
    unregistered pre = [] /\
    unregistered_at_exit E argv.
Proof.
  intros Hs Hb. unfold unregistered_at_exit, registered.
  destruct (registrations_set_up E argv Hs) as [Hreg Hun].
  rewrite Hreg, Hun, Hb. clear Hreg Hun.
  pose proof Hs as (_ & _ & _ & _ & [t0 Ht0] & [t1 Ht1]).
  assert (Hr : omap (fun ic => core_admin_register_result E ic.1 ic.2)
                 [(opt_dlog_intvl E, debug_log_flush);
                  (opt_klog_intvl E, klog_flush)] = [t0; t1]).
  { unfold dlog_tev, klog_tev in *. cbn. rewrite Ht0, Ht1. reflexivity. }
  rewrite Hr. clear Hr.
  run_paths E argv; try contra; try congruence.
  cbn [final_world trace world_of slimcache_tev exit_status].
  rewrite Ht0, Ht1.
  exists t0, t1,
    (load_events E argv ++ setup_events E ++
     [ev_option_print_all;
      ev_core_run Addr_worker_processor Addr_worker_processor_running;
      log_stderr "_shutdown received signal %d" [VInt SIGTERM];
      ev_atomic_store_n Addr_worker_processor_running false ATOMIC_RELEASE]).
  split; [reflexivity|]. split; [reflexivity|]. split; [reflexivity|].
  split; [unfold shutdown_events; norm_app; reflexivity|].
  split.
  - unfold unregistered, setup_events. rewrite !omap_app.
    fold (unregistered (load_events E argv)) (unregistered (app_events E)).
    rewrite unregistered_load, unregistered_app. reflexivity.
  - intros st _ t Ht. apply elem_of_cons in Ht as [->|Ht];
      [apply list_elem_of_here|].
    apply elem_of_cons in Ht as [->|Ht];
      [apply list_elem_of_further, list_elem_of_here|].
    inversion Ht.
Qed.

Lemma set_up_env_ok : set_up env_ok ["pelikan_slimcache"].
Proof.
  split; [split; [left; cbn; lia|split; [reflexivity|intros [? [=]]]]|].
  split; [reflexivity|]. split; [cbn; lia|]. split; [cbn; lia|].
  split; eexists; reflexivity.
Defined.

Lemma C2_witness :
  exists t0 t1 pre,
    exit_status (run env_ok ["pelikan_slimcache"]) = Some EX_OK /\
    registered env_ok (trace (final_world (run env_ok ["pelikan_slimcache"])))
    = [t0; t1] /\
    slimcache_tev (final_world (run env_ok ["pelikan_slimcache"]))
    = [Some t0; Some t1] /\
    trace (final_world (run env_ok ["pelikan_slimcache"])) =
      pre ++ [ev_core_destroy;
              ev_core_admin_unregister (Some t0);
              ev_core_admin_unregister (Some t1);
              ev_exit EX_OK] ++ teardown_events /\
    unregistered pre = [] /\
    unregistered_at_exit env_ok ["pelikan_slimcache"].
Proof.
  exact (C2_unregistered_on_shutdown env_ok ["pelikan_slimcache"]
           set_up_env_ok eq_refl).
Defined.

(** C3, counterexample.  In a run in which [setup] returns, two timed
    events are registered, and none of them is an expiration sweep. *)
Lemma C3_counterexample :
  set_up env_ok ["pelikan_slimcache"] /\
  registrations (trace (final_world (run env_ok ["pelikan_slimcache"])))
  = [(500, debug_log_flush); (100, klog_flush)] /\
  ~ registers_all_listed env_ok ["pelikan_slimcache"].
Proof.
  split; [exact set_up_env_ok|]. split; [reflexivity|].
  intros H. destruct (H ExpirationSweep) as (i & cb & _ & Hrole).
  destruct cb; discriminate Hrole.
Qed.

(** C3, amended.  When [setup] returns it has registered exactly two timed
    events with the admin thread, in this order: [debug_log_flush] at the
    interval of the option [dlog_intvl], and [klog_flush] at the interval of
    the option [klog_intvl]; the callbacks stand for the debug-log flush and
    the command-log flush, and no expiration sweep is registered. *)
Theorem C3_two_flush_callbacks E argv :
  set_up E argv ->
  registrations (trace (final_world (run E argv))) =
  [(opt_dlog_intvl E, debug_log_flush); (opt_klog_intvl E, klog_flush)] /\
  map callback_role (map snd (registrations (trace (final_world (run E argv)))))
  = [DebugLogFlush; CommandLogFlush] /\
  length (registrations (trace (final_world (run E argv)))) = MAX_TIMEOUT_EV.
Proof.
  intros Hs. destruct (registrations_set_up E argv Hs) as [-> _].
  repeat split; reflexivity.
Qed.

Lemma C3_witness :
  registrations (trace (final_world (run env_ok ["pelikan_slimcache"])))
  = [(500, debug_log_flush); (100, klog_flush)].
Proof.
  exact (proj1 (C3_two_flush_callbacks env_ok ["pelikan_slimcache"]
                  set_up_env_ok)).
Defined.

(** The two ends of serving that pass through main.c are the ends of the
    runs in which [core_run] returns and in which SIGTERM arrives: from the
    state in which [core_run] serves, [end_of_serving] gives the outcome of
    those runs. *)
Lemma serving_state E argv w :
  run (with_core CoreServes E) argv = Serving w ->
  set_up E argv /\
  w = world_of true [dlog_tev E; klog_tev E] [Fn_teardown] handlers_set
        (load_events E argv ++ setup_events E ++
         [ev_option_print_all;
          ev_core_run Addr_worker_processor Addr_worker_processor_running]).
Proof.
  run_paths (with_core CoreServes E) argv; try discriminate.
  intros [= <-]. split; [assumption|reflexivity].
Qed.

(** The answer of [core_run] is looked at by [core_run] alone. *)
Ltac same_env E :=
  change (atexit_result (with_core _ E)) with (atexit_result E) in *;
  change (signal_override_result (with_core _ E))
    with (signal_override_result E) in *;
  change (debug_setup_result (with_core _ E)) with (debug_setup_result E) in *;
  change (opt_pid_filename (with_core _ E)) with (opt_pid_filename E) in *;
  change (dlog_tev (with_core _ E)) with (dlog_tev E) in *;
  change (klog_tev (with_core _ E)) with (klog_tev E) in *;
  change (loaded (with_core _ E)) with (loaded E) in *;
  change (set_up (with_core _ E)) with (set_up E) in *;
  change (load_events (with_core _ E)) with (load_events E) in *;
  change (setup_events (with_core _ E)) with (setup_events E) in *;
  change (core_run_behaviour (with_core ?b E)) with b in *.

Lemma deliver_handlers_set w :
  signal_handlers w = handlers_set -> deliver SIGTERM w = _shutdown SIGTERM w.
Proof. intros H. unfold deliver. rewrite H. reflexivity. Qed.

Lemma end_of_serving_run E argv w :
  run (with_core CoreServes E) argv = Serving w ->
  run (with_core CoreReturns E) argv = end_of_serving EndReturns w /\
  run (with_core CoreSigterm E) argv = end_of_serving EndSigterm w.
Proof.
  intros [Hs ->]%serving_state. split.
  - run_paths (with_core CoreReturns E) argv; same_env E; try contra.
    unfold end_of_serving. rewrite exit_run.
    unfold emits, world_of, atexit_events.
    cbn [trace atexit_registered worker_processor slimcache_tev
         signal_handlers flat_map].
    rewrite app_nil_r, <- !app_assoc. reflexivity.
  - run_paths (with_core CoreSigterm E) argv; same_env E; try contra.
    unfold end_of_serving. rewrite deliver_handlers_set by reflexivity.
    rewrite shutdown_run.
    unfold emits, world_of, set_running, tev_entries, atexit_events.
    cbn [trace atexit_registered worker_processor slimcache_tev
         signal_handlers flat_map dp_read dp_write dp_error
         map seq MAX_TIMEOUT_EV lookup list_lookup default].
    rewrite app_nil_r, <- !app_assoc. reflexivity.
Qed.

(** From the state in which [core_run] serves, each of the two ends that
    pass through main.c ends the process with [EX_OK]. *)
Lemma ends_through_main_ok E argv w e :
  run (with_core CoreServes E) argv = Serving w ->
  through_main e = true ->
  exists w', end_of_serving e w = Exited EX_OK w'.
Proof.
  intros [_ ->]%serving_state He. destruct e; [| |discriminate He].
  - unfold end_of_serving. rewrite exit_run. eexists. reflexivity.
  - unfold end_of_serving. rewrite deliver_handlers_set by reflexivity.
    rewrite shutdown_run. eexists. reflexivity.
Qed.

(** ** The store *)

Section StoreFacts.
Import CuckooStore.
Variable C : config.

Lemma slots_lt k s : (0 < capacity C)%nat -> s ∈ slots C k -> (s < capacity C)%nat.
Proof.
  intros Hc (h & -> & _)%list_elem_of_fmap. apply Nat.mod_upper_bound. lia.
Qed.

Lemma occupant_Some now tbl s it :
  occupant now tbl s = Some it <->
  tbl !! s = Some (Some it) /\ live now it = true.
Proof.
  unfold occupant. destruct (tbl !! s) as [[it'|]|].
  - destruct (live now it') eqn:Hl.
    + split; [by intros [= <-]|by intros [[= <-] _]].
    + split; [done|]. intros [[= <-] Hl']. congruence.
  - split; [done|by intros [[=] _]].
  - split; [done|by intros [[=] _]].
Qed.

Lemma find_key_Some now k tbl s :
  find_key C now k tbl = Some s ->
  s ∈ slots C k /\ exists it, occupant now tbl s = Some it /\ key it = k.
Proof.
  unfold find_key. intros [Hin Hk]%find_some. split.
  - by apply list_elem_of_In.
  - unfold holds_key in Hk. destruct (occupant now tbl s) as [it|]; [|done].
    exists it. split; [done|]. by apply bool_decide_eq_true in Hk.
Qed.

Lemma find_key_None now k tbl s it :
  find_key C now k tbl = None -> s ∈ slots C k ->
  occupant now tbl s = Some it -> key it ≠ k.
Proof.
  unfold find_key. intros Hnone Hin%list_elem_of_In Hocc Hk.
  pose proof (find_none _ _ Hnone s Hin) as Hf.
  unfold holds_key in Hf. rewrite Hocc in Hf.
  by apply bool_decide_eq_false in Hf.
Qed.

Lemma find_free_Some now k tbl s :
  find_free C now k tbl = Some s -> s ∈ slots C k /\ occupant now tbl s = None.
Proof.
  unfold find_free. intros [Hin Hf]%find_some. split.
  - by apply list_elem_of_In.
  - unfold is_free in Hf. by destruct (occupant now tbl s).
Qed.

Lemma holds_occupant now tbl k it :
  holds now tbl k it <-> exists s, occupant now tbl s = Some it /\ key it = k.
Proof.
  unfold holds. split.
  - intros (s & Hs & Hk & Hl). exists s. split; [|done]. by apply occupant_Some.
  - intros (s & [Hs Hl]%occupant_Some & Hk). by exists s.
Qed.

Lemma get_holds_1 now tbl k it :
  get C now k tbl = Some it -> holds now tbl k it.
Proof.
  unfold get. destruct (find_key C now k tbl) as [s|] eqn:Hf; [|done].
  intros Hocc. apply find_key_Some in Hf as (_ & it' & Hocc' & Hk).
  rewrite Hocc in Hocc'. injection Hocc' as <-.
  apply holds_occupant. eauto.
Qed.

Lemma get_holds_2 now tbl k it :
  well_formed C now tbl -> holds now tbl k it -> get C now k tbl = Some it.
Proof.
  intros (_ & _ & Hp & Hu) (s & Hs & Hk & Hl). unfold get.
  destruct (find_key C now k tbl) as [s'|] eqn:Hf.
  - apply find_key_Some in Hf as (_ & it' & Hocc & Hk').
    pose proof Hocc as [Hs' Hl']%occupant_Some.
    assert (s' = s) as -> by (eapply Hu; eauto; congruence).
    rewrite Hs in Hs'. by injection Hs' as <-.
  - exfalso. eapply (find_key_None now k tbl s it Hf); [|by apply occupant_Some|done].
    rewrite <- Hk. by eapply Hp.
Qed.

Lemma not_holds_find_None now tbl k it :
  placed C tbl -> find_key C now k tbl = None -> ~ holds now tbl k it.
Proof.
  intros Hp Hf (s & Hs & Hk & Hl).
  eapply (find_key_None now k tbl s it Hf); [|by apply occupant_Some|done].
  rewrite <- Hk. by eapply Hp.
Qed.

Lemma holds_later now t tbl k it :
  holds now tbl k it -> t < expire it -> holds t tbl k it.
Proof.
  intros (s & Hs & Hk & _) Ht. exists s. repeat split; [done..|].
  by apply bool_decide_eq_true.
Qed.

Lemma live_earlier now t it : now <= t -> live t it = true -> live now it = true.
Proof.
  unfold live. intros Hle Hl%bool_decide_eq_true. apply bool_decide_eq_true. lia.
Qed.

Lemma well_formed_later now t tbl :
  now <= t -> well_formed C now tbl -> well_formed C t tbl.
Proof.
  intros Hle (Hc & Hlen & Hp & Hu). repeat split; [done..|].
  intros s1 s2 i1 i2 H1 H2 Hk Hl1 Hl2.
  eapply Hu; eauto using live_earlier.
Qed.

Lemma well_formed_empty now :
  (0 < capacity C)%nat -> well_formed C now (replicate (capacity C) None).
Proof.
  intros Hc. split; [done|]. split; [apply length_replicate|]. split.
  - intros s it [[=] _]%lookup_replicate.
  - intros s1 s2 i1 i2 [[=] _]%lookup_replicate.
Qed.

(** Writing an item into one of its candidate slots keeps the invariants
    when no other slot holds a live item of its key. *)
Lemma well_formed_insert now tbl s it :
  well_formed C now tbl -> s ∈ slots C (key it) ->
  (forall s' it', s' ≠ s -> tbl !! s' = Some (Some it') ->
                  key it' = key it -> live now it' = true -> False) ->
  well_formed C now (<[s := Some it]> tbl).
Proof.
  intros (Hc & Hlen & Hp & Hu) Hin Hother. split; [done|].
  split; [by rewrite length_insert|]. split.
  - intros s' it'. destruct (decide (s = s')) as [<-|Hne].
    + rewrite list_lookup_insert_eq by (rewrite Hlen; eauto using slots_lt).
      by intros [= <-].
    + rewrite list_lookup_insert_ne by done. apply Hp.
  - intros s1 s2 i1 i2.
    destruct (decide (s = s1)) as [<-|Hne1], (decide (s = s2)) as [<-|Hne2];
      [done|..].
    + rewrite list_lookup_insert_eq by (rewrite Hlen; eauto using slots_lt).
      rewrite list_lookup_insert_ne by done.
      intros [= <-] H2 Hk _ Hl2. exfalso. eapply (Hother s2 i2); eauto.
    + rewrite list_lookup_insert_ne by done.
      rewrite list_lookup_insert_eq by (rewrite Hlen; eauto using slots_lt).
      intros H1 [= <-] Hk Hl1 _. exfalso. eapply (Hother s1 i1); eauto.
    + rewrite !list_lookup_insert_ne by done. apply Hu.
Qed.

Lemma well_formed_clear now tbl s :
  well_formed C now tbl -> well_formed C now (<[s := None]> tbl).
Proof.
  intros (Hc & Hlen & Hp & Hu). split; [done|].
  split; [by rewrite length_insert|].
  assert (Hsub : forall s' it', <[s := None]> tbl !! s' = Some (Some it') ->
                                tbl !! s' = Some (Some it')).
  { intros s' it'. destruct (decide (s = s')) as [<-|Hne].
    - destruct (decide (s < length tbl)%nat).
      + by rewrite list_lookup_insert_eq.
      + by rewrite list_insert_ge by lia.
    - by rewrite list_lookup_insert_ne. }
  split.
  - intros s' it' H. by apply Hp, Hsub.
  - intros s1 s2 i1 i2 H1 H2. eapply Hu; eauto.
Qed.

Lemma holds_insert_same now tbl s it :
  (s < length tbl)%nat -> live now it = true ->
  holds now (<[s := Some it]> tbl) (key it) it.
Proof. intros Hs Hl. exists s. by rewrite list_lookup_insert_eq. Qed.

Lemma holds_insert_other now tbl s x k it :
  (forall y, occupant now tbl s = Some y -> key y ≠ k) ->
  holds now tbl k it -> holds now (<[s := x]> tbl) k it.
Proof.
  intros Hocc (s' & Hs' & Hk & Hl). exists s'. repeat split; [|done..].
  destruct (decide (s = s')) as [<-|Hne]; [|by rewrite list_lookup_insert_ne].
  exfalso. eapply (Hocc it); [by apply occupant_Some|done].
Qed.

Lemma alternate_in k s : s ∈ slots C k -> alternate C k s ∈ slots C k.
Proof.
  intros Hs. unfold alternate.
  destruct (List.find _ (slots C k)) as [a|] eqn:Hf; [|done].
  apply find_some in Hf as [Hin _]. by apply list_elem_of_In.
Qed.

(** Displacement, when it succeeds, loses no live item: the new item is
    in, every other live key keeps its item, and the invariants hold. *)
Lemma displace_spec now fuel : forall it s tbl tbl',
  well_formed C now tbl -> s ∈ slots C (key it) ->
  (forall it0, ~ holds now tbl (key it) it0) ->
  displace C fuel now it s tbl = Some tbl' ->
  well_formed C now tbl' /\
  (live now it = true -> holds now tbl' (key it) it) /\
  (forall k' it', k' ≠ key it -> holds now tbl k' it' -> holds now tbl' k' it').
Proof.
  induction fuel as [|fuel IH]; intros it s tbl tbl' Hwf Hs Hfresh Hd.
  all: cbn [displace] in Hd.
  all: destruct (occupant now tbl s) as [y|] eqn:Hocc; [|injection Hd as <-].
  1: discriminate Hd.
  2: {
    (* a live occupant [y] is evicted to its alternate slot *)
    pose proof Hocc as [Hy Hly]%occupant_Some.
    pose proof Hwf as (Hc & Hlen & Hp & Hu).
    assert (Hsl : (s < length tbl)%nat) by (rewrite Hlen; eauto using slots_lt).
    assert (Hky : key y ≠ key it).
    { intros Hk. apply (Hfresh y). exists s. by rewrite <- Hk. }
    assert (Hwf1 : well_formed C now (<[s := Some it]> tbl)).
    { apply well_formed_insert; [done..|].
      intros s' it' _ Hs' Hk Hl. apply (Hfresh it'). by exists s'. }
    destruct (IH y (alternate C (key y) s) (<[s := Some it]> tbl) tbl')
      as (Hwf' & Hhy & Hrest); [done| |  |done|].
    - apply alternate_in. by eapply Hp.
    - intros it0 (s0 & Hs0 & Hk0 & Hl0).
      destruct (decide (s = s0)) as [<-|Hne].
      + rewrite list_lookup_insert_eq in Hs0 by done.
        injection Hs0 as <-. congruence.
      + rewrite list_lookup_insert_ne in Hs0 by done.
        apply Hne. eapply Hu; eauto.
    - split; [done|]. split.
      + intros Hl. apply Hrest; [congruence|]. by apply holds_insert_same.
      + intros k' it' Hk' Hh. destruct (decide (k' = key y)) as [->|Hne].
        * destruct Hh as (s0 & Hs0 & Hk0 & Hl0).
          assert (s0 = s) as -> by (eapply Hu; eauto).
          rewrite Hy in Hs0. injection Hs0 as <-. by apply Hhy.
        * apply Hrest; [done|]. apply holds_insert_other; [|done].
          intros y' Hy'. rewrite Hocc in Hy'. by injection Hy' as <-. }
  (* the slot is empty or expired *)
  all: pose proof Hwf as (Hc & Hlen & Hp & Hu).
  all: assert (Hsl : (s < length tbl)%nat) by (rewrite Hlen; eauto using slots_lt).
  all: split; [|split].
  all: try (apply well_formed_insert; [done..|];
            intros s' it' _ Hs' Hk Hl; apply (Hfresh it'); by exists s').
  all: try (intros Hl; by apply holds_insert_same).
  all: intros k' it' Hk' Hh; apply holds_insert_other; [|done].
  all: intros y' Hy'; by rewrite Hocc in Hy'.
Qed.

Lemma live_new now k v fl ttl : 0 < ttl -> live now (Item k v fl (now + ttl)) = true.
Proof. intros Ht. apply bool_decide_eq_true. cbn. lia. Qed.

(** [set] keeps the invariants; when it stores, the sizes are within the
    limits, the key holds the new item while its ttl lasts, and every other
    key that is not the evicted one keeps its item; when it does not store,
    the table is unchanged. *)
Lemma set_spec now k v fl ttl tbl r tbl' :
  well_formed C now tbl -> set C now k v fl ttl tbl = (r, tbl') ->
  well_formed C now tbl' /\
  match r with
  | Stored ev =>
      (length k <= max_key_len C)%nat /\ (length v <= max_val_len C)%nat /\
      (0 < ttl -> holds now tbl' k (Item k v fl (now + ttl))) /\
      (forall k' it', k' ≠ k -> ev ≠ Some k' ->
                      holds now tbl k' it' -> holds now tbl' k' it')
  | _ => tbl' = tbl
  end.
Proof.
  intros Hwf. pose proof Hwf as (Hc & Hlen & Hp & Hu). unfold set.
  destruct (bool_decide (max_key_len C < length k)%nat) eqn:Hkl;
    [intros [= <- <-]; done|].
  destruct (bool_decide (max_val_len C < length v)%nat) eqn:Hvl;
    [intros [= <- <-]; done|].
  apply bool_decide_eq_false in Hkl, Hvl. cbn [orb].
  set (it := Item k v fl (now + ttl)).
  assert (Hfresh : find_key C now k tbl = None ->
            forall s' it', tbl !! s' = Some (Some it') ->
                           key it' = key it -> live now it' = true -> False).
  { intros Hf s' it' Hs' Hk Hl.
    apply (not_holds_find_None now tbl k it' Hp Hf). by exists s'. }
  destruct (find_key C now k tbl) as [s|] eqn:Hfk.
  { (* the live item of the key is updated in place *)
    intros [= <- <-].
    apply find_key_Some in Hfk as (Hs & it0 & Hocc & Hk0).
    pose proof Hocc as [Hs0 Hl0]%occupant_Some.
    assert (Hsl : (s < length tbl)%nat) by (rewrite Hlen; eauto using slots_lt).
    split; [|split; [lia|split; [lia|split]]].
    - apply well_formed_insert; [done..|].
      intros s' it' Hne Hs' Hk Hl. apply Hne. eapply Hu; eauto.
      cbn in Hk. congruence.
    - intros Ht. apply (holds_insert_same now tbl s it); [done|].
      by apply live_new.
    - intros k' it' Hk' _ Hh. apply holds_insert_other; [|done].
      intros y Hy. rewrite Hocc in Hy. injection Hy as <-. congruence. }
  specialize (Hfresh eq_refl).
  destruct (find_free C now k tbl) as [s|] eqn:Hff.
  { (* a candidate slot is empty or expired *)
    intros [= <- <-]. apply find_free_Some in Hff as (Hs & Hocc).
    assert (Hsl : (s < length tbl)%nat) by (rewrite Hlen; eauto using slots_lt).
    split; [|split; [lia|split; [lia|split]]].
    - apply well_formed_insert; [done..|]. intros s' it' _. apply Hfresh.
    - intros Ht. apply (holds_insert_same now tbl s it); [done|].
      by apply live_new.
    - intros k' it' Hk' _ Hh. apply holds_insert_other; [|done].
      intros y Hy. by rewrite Hocc in Hy. }
  destruct (slots C k) as [|s rest] eqn:Hsl; [intros [= <- <-]; done|].
  assert (Hs : s ∈ slots C (key it)) by (cbn; rewrite Hsl; apply list_elem_of_here).
  assert (Hlt : (s < length tbl)%nat) by (rewrite Hlen; eauto using slots_lt).
  destruct (displace C (max_displace C) now it s tbl) as [tbl1|] eqn:Hd.
  { (* displacement found room *)
    intros [= <- <-].
    destruct (displace_spec now (max_displace C) it s tbl tbl1 Hwf Hs) as (Hwf' & Hnew & Hrest);
      [|done|].
    - intros it0 (s' & Hs' & Hk & Hl). by eapply Hfresh.
    - split; [done|]. split; [lia|]. split; [lia|]. split.
      + intros Ht. apply Hnew. by apply live_new.
      + intros k' it' Hk' _. by apply Hrest. }
  destruct (on_exhausted C); intros [= <- <-]; [done|].
  (* the bound is exhausted and the victim is evicted *)
  split; [|split; [lia|split; [lia|split]]].
  - apply well_formed_insert; [done..|]. intros s' it' _. apply Hfresh.
  - intros Ht. apply (holds_insert_same now tbl s it); [done|].
    by apply live_new.
  - intros k' it' Hk' Hev Hh. apply holds_insert_other; [|done].
    intros y Hy. rewrite Hy in Hev. cbn in Hev. congruence.
Qed.

Lemma delete_spec now k tbl :
  well_formed C now tbl ->
  well_formed C now (delete C now k tbl).2 /\
  (forall k' it', k' ≠ k -> holds now tbl k' it' ->
                  holds now (delete C now k tbl).2 k' it') /\
  (forall it, ~ holds now (delete C now k tbl).2 k it).
Proof.
  intros Hwf. pose proof Hwf as (Hc & Hlen & Hp & Hu). unfold delete.
  destruct (find_key C now k tbl) as [s|] eqn:Hfk; cbn [snd].
  - pose proof Hfk as (Hs & it0 & Hocc & Hk0)%find_key_Some.
    pose proof Hocc as [Hs0 Hl0]%occupant_Some.
    split; [by apply well_formed_clear|]. split.
    + intros k' it' Hk' Hh. apply holds_insert_other; [|done].
      intros y Hy. rewrite Hocc in Hy. injection Hy as <-. congruence.
    + intros it (s' & Hs' & Hk & Hl).
      destruct (decide (s = s')) as [<-|Hne].
      * rewrite list_lookup_insert_eq in Hs' by (rewrite Hlen; eauto using slots_lt).
        discriminate.
      * rewrite list_lookup_insert_ne in Hs' by done.
        apply Hne. eapply Hu; eauto. congruence.
  - split; [done|]. split; [done|].
    intros it. by apply not_holds_find_None.
Qed.

(** One operation on another key, evicting another key or none, leaves the
    item of the key in place. *)
Lemma step_spec now o tbl k it :
  well_formed C now tbl -> mutated o ≠ Some k ->
  (step C now o tbl).2 ≠ Some k ->
  holds now tbl k it ->
  well_formed C now (step C now o tbl).1 /\
  holds now (step C now o tbl).1 k it.
Proof.
  intros Hwf Hk Hev Hh. destruct o as [k'|k' v fl ttl|k']; cbn in *.
  - done.
  - destruct (set C now k' v fl ttl tbl) as [r tbl'] eqn:Hset.
    destruct (set_spec _ _ _ _ _ _ _ _ Hwf Hset) as [Hwf' Hr].
    destruct r as [ev| |]; cbn in *.
    + split; [done|]. destruct Hr as (_ & _ & _ & Hrest).
      apply Hrest; [congruence|congruence|done].
    + by subst.
    + by subst.
  - destruct (delete_spec now k' tbl Hwf) as (Hwf' & Hrest & _).
    split; [done|]. apply Hrest; [congruence|done].
Qed.

(** A history of operations on other keys that does not evict the key
    leaves its item in place until the item expires. *)
Lemma run_ops_spec ops : forall t0 t' tbl k it,
  well_formed C t0 tbl -> holds t0 tbl k it ->
  timeline t0 ops t' -> t' < expire it ->
  Forall (fun to => mutated to.2 ≠ Some k) ops ->
  k ∉ (run_ops C ops tbl).2 ->
  well_formed C t' (run_ops C ops tbl).1 /\
  holds t' (run_ops C ops tbl).1 k it.
Proof.
  induction ops as [|[t o] ops IH]; intros t0 t' tbl k it Hwf Hh Htl Hexp Hk Hev.
  - cbn in *. split; [by eapply well_formed_later|by eapply holds_later].
  - cbn in Htl. destruct Htl as [Hle Htl]. cbn [run_ops] in *.
    destruct (step C t o tbl) as [tbl1 ev] eqn:Hstep.
    destruct (run_ops C ops tbl1) as [tbl2 evs] eqn:Hrun.
    cbn [fst snd] in *.
    apply Forall_cons in Hk as [Hko Hk].
    apply not_elem_of_app in Hev as [Hev1 Hev2].
    assert (Hmid : timeline t ops t' -> t <= t').
    { clear. revert t. induction ops as [|[t1 o1] ops IH]; cbn; [done|].
      intros t [Hle Htl]. specialize (IH _ Htl). lia. }
    specialize (Hmid Htl).
    destruct (step_spec t o tbl k it) as [Hwf1 Hh1].
    + by eapply well_formed_later.
    + done.
    + rewrite Hstep. cbn. intros ->. apply Hev1. cbn. apply list_elem_of_here.
    + eapply holds_later; [done|lia].
    + rewrite Hstep in Hwf1, Hh1. cbn in Hwf1, Hh1.
      specialize (IH t t' tbl1 k it Hwf1 Hh1 Htl Hexp Hk).
      rewrite Hrun in IH. by apply IH.
Qed.

(** C7. After a successful [set(k, v, flags, ttl)] the key and the value
    are within the size limits, and [get(k)] returns the value with its
    flags, at once and after any later history of operations, for as long
    as the key is not overwritten or deleted (no later operation writes or
    removes [k]), has not expired (the time is before [now + ttl]) and is
    not evicted (no later operation reports [k] as its victim). *)
Theorem C7_set_then_get now tbl k v fl ttl ev tbl1 ops t' :
  well_formed C now tbl ->
  set C now k v fl ttl tbl = (Stored ev, tbl1) ->
  timeline now ops t' -> t' < now + ttl ->
  Forall (fun to => mutated to.2 ≠ Some k) ops ->
  k ∉ (run_ops C ops tbl1).2 ->
  (length k <= max_key_len C)%nat /\ (length v <= max_val_len C)%nat /\
  exists it,
    get C t' k (run_ops C ops tbl1).1 = Some it /\
    key it = k /\ value it = v /\ flags it = fl.
Proof.
  intros Hwf Hset Htl Hexp Hops Hev.
  destruct (set_spec _ _ _ _ _ _ _ _ Hwf Hset) as (Hwf1 & Hkl & Hvl & Hnew & _).
  split; [done|]. split; [done|].
  assert (Hle : now <= t').
  { clear -Htl. revert now Htl. induction ops as [|[t1 o1] ops IH]; cbn; [done|].
    intros now [Hle Htl]. specialize (IH _ Htl). lia. }
  destruct (run_ops_spec ops now t' tbl1 k (Item k v fl (now + ttl)))
    as [Hwf2 Hh]; [done|apply Hnew; lia|done|done|done|done|].
  exists (Item k v fl (now + ttl)). split; [by apply get_holds_2|done].
Qed.

End StoreFacts.

Lemma C7_witness :
  exists it,
    CuckooStore.get CuckooStore.demo_config 105 [x66; x6f; x6f]
      (CuckooStore.run_ops CuckooStore.demo_config CuckooStore.demo_history
         [None; None; None;
          Some (CuckooStore.Item [x66; x6f; x6f] [x62; x61; x72] 7 110)]).1
    = Some it /\
    CuckooStore.key it = [x66; x6f; x6f] /\
    CuckooStore.value it = [x62; x61; x72] /\ CuckooStore.flags it = 7.
Proof.
  refine (proj2 (proj2 (C7_set_then_get CuckooStore.demo_config 100
    (replicate 4 None) [x66; x6f; x6f] [x62; x61; x72] 7 10 None _
    CuckooStore.demo_history 105 _ _ _ _ _ _))).
  - apply (well_formed_empty CuckooStore.demo_config). cbn. lia.
  - vm_compute. reflexivity.
  - cbn. lia.
  - lia.
  - repeat constructor; discriminate.
  - vm_compute. apply not_elem_of_nil.
Defined.

(** The model at work: a displacement that finds room, an exhausted
    displacement that evicts the victim, and an item at its expire time. *)
Example demo_displacement :
  let C := CuckooStore.demo_config in
  let t0 := replicate 4 None in
  let '(r1, t1) := CuckooStore.set C 0 [x62] [x01] 0 10 t0 in
  let '(r2, t2) := CuckooStore.set C 0 [x63; x63; x63] [x02] 0 10 t1 in
  let '(r3, t3) := CuckooStore.set C 0 [x63] [x03] 0 10 t2 in
  r3 = CuckooStore.Stored None /\
  CuckooStore.value <$> CuckooStore.get C 1 [x62] t3 = Some [x01] /\
  CuckooStore.value <$> CuckooStore.get C 1 [x63; x63; x63] t3 = Some [x02] /\
  CuckooStore.value <$> CuckooStore.get C 1 [x63] t3 = Some [x03].
Proof. vm_compute. repeat split; reflexivity. Qed.

Example demo_eviction :
  let C := CuckooStore.demo_config in
  let t0 := replicate 4 None in
  let '(r1, t1) := CuckooStore.set C 0 [x61] [x01] 0 10 t0 in
  let '(r2, t2) := CuckooStore.set C 0 [x65] [x02] 0 10 t1 in
  r2 = CuckooStore.Stored (Some [x61]) /\
  CuckooStore.get C 1 [x61] t2 = None /\
  CuckooStore.value <$> CuckooStore.get C 1 [x65] t2 = Some [x02].
Proof. vm_compute. repeat split; reflexivity. Qed.

Example demo_expiry :
  let C := CuckooStore.demo_config in
  let '(r1, t1) := CuckooStore.set C 100 [x61] [x01] 0 10 (replicate 4 None) in
  CuckooStore.value <$> CuckooStore.get C 109 [x61] t1 = Some [x01] /\
  CuckooStore.get C 110 [x61] t1 = None.
Proof. vm_compute. repeat split; reflexivity. Qed.

(** ** Further properties of main.c *)

(** X1. Each of the eight flags is answered on the spot: [main] prints the
    usage message (for [-h] and [--help], the four texts written out in
    [usage_message]), the version, the options or the metrics, and calls
    [exit(EX_OK)]; no file is opened (not even one named like the flag), no
    option is loaded, nothing is registered or set up. *)
Theorem X1_flags_answered_without_startup E p a :
  a ∈ option_flags ->
  run E [p; a]
  = Exited EX_OK
      (world_of true [None; None] [] [] (flag_answer a ++ [ev_exit EX_OK])) /\
  (a = "-h" \/ a = "--help" -> flag_answer a = map log_stdout usage_message) /\
  existsb loads_options (flag_answer a) = false /\
  existsb is_module_setup (flag_answer a) = false /\
  existsb is_core_run (flag_answer a) = false.
Proof.
  unfold option_flags. rewrite !elem_of_cons, elem_of_nil.
  intros [->|[->|[->|[->|[->|[->|[->|[->|[]]]]]]]]];
    (split; [reflexivity|]); (split; [by intros [|]|]);
    repeat split; reflexivity.
Qed.

Lemma X1_witness :
  run env_ok ["pelikan_slimcache"; "--help"]
  = Exited EX_OK
      (world_of true [None; None] [] []
         (map log_stdout usage_message ++ [ev_exit EX_OK])).
Proof.
  refine (proj1 (X1_flags_answered_without_startup env_ok "pelikan_slimcache"
                   "--help" _)).
  unfold option_flags.
  repeat first [apply list_elem_of_here | apply list_elem_of_further].
Defined.

Lemma exit_statuses_load E argv : exit_statuses (load_events E argv) = [].
Proof. piece. Qed.
Lemma exit_statuses_cmd argv : exit_statuses (cmd_events argv) = [].
Proof. piece. Qed.
Lemma exit_statuses_app E : exit_statuses (app_events E) = [].
Proof. piece. Qed.
Lemma exit_statuses_error o : exit_statuses (error_events o) = [].
Proof. piece. Qed.
Lemma exit_statuses_app_l A B :
  exit_statuses (A ++ B) = exit_statuses A ++ exit_statuses B.
Proof. apply omap_app. Qed.

Ltac statuses :=
  cbn [final_world trace world_of]; unfold setup_events, shutdown_events;
  repeat first
    [ rewrite exit_statuses_app_l | rewrite exit_statuses_load
    | rewrite exit_statuses_cmd | rewrite exit_statuses_app
    | rewrite exit_statuses_error ].

(** X2. [main] never returns to its caller and SIGTERM never meets the
    default disposition: a run either ends in one call of [exit], with one of
    the five statuses main.c uses, or keeps serving inside [core_run]
    without having called [exit]. *)
Theorem X2_main_exits_once_or_serves E argv :
  (exists st w,
      run E argv = Exited st w /\
      exit_statuses (trace w) = [st] /\ st ∈ statuses_used) \/
  (exists w,
      run E argv = Serving w /\ core_run_behaviour E = CoreServes /\
      exit_statuses (trace w) = []).
Proof.
  run_paths E argv.
  all: try (left; eexists _, _; split; [reflexivity|]; split;
            [statuses; reflexivity
            |unfold statuses_used;
             repeat first [apply list_elem_of_here | apply list_elem_of_further]]).
  right. eexists. split; [reflexivity|]. split; [done|]. statuses. reflexivity.
Qed.

Ltac has_core_run :=
  cbn [final_world trace world_of];
  rewrite !existsb_app; cbn [existsb is_core_run orb];
  rewrite ?orb_true_r; reflexivity.

(** X3. [core_run] is called only after every start-up step succeeded: in
    a run that calls it the command line asks for a server, the options
    loaded, teardown and the handler are registered, [debug_setup]
    succeeded and both timed events are registered. *)
Theorem X3_core_run_only_after_set_up E argv :
  existsb is_core_run (trace (final_world (run E argv))) = true ->
  set_up E argv.
Proof.
  run_paths E argv; cbn [final_world trace world_of]; try done.
  all: intros Hcr; exfalso; revert Hcr.
  all: match goal with
       | |- ?b = true -> False =>
           assert (Hno : b = false) by no_core_run; rewrite Hno; discriminate
       end.
Qed.

Lemma X3_witness : set_up env_ok ["pelikan_slimcache"].
Proof.
  apply X3_core_run_only_after_set_up. vm_compute. reflexivity.
Defined.

Ltac orb_true :=
  repeat first
    [ reflexivity
    | rewrite bool_decide_true by first [assumption | lia | congruence]
    | rewrite orb_true_r | rewrite orb_true_l
    | progress cbn [existsb fails_at orb app] ].

(** X4. Every exit with a status other than [EX_OK] has a cause that main.c
    tests for: more than one argument, or one of the eight fatal failures
    occurring in the run. *)
Theorem X4_nonzero_exit_has_cause E argv st :
  exit_status (run E argv) = Some st -> st ≠ EX_OK ->
  (2 < length argv)%nat \/
  exists f, occurs E (trace (final_world (run E argv))) f.
Proof.
  unfold occurs.
  run_paths E argv; cbn [exit_status final_world trace world_of];
    intros [= <-] Hst; try done.
  - by left.
  - right. exists F_config_path. subst. orb_true.
  - right. exists F_load_default. rewrite existsb_app. orb_true.
  - right. exists F_load_file. break_stage; simplify_eq.
    all: unfold load_events, config_file, cmd_events in *; cbn in *;
      try discriminate.
    match goal with H : fopen_result _ _ = _ |- _ => rewrite H end.
    cbn. orb_true.
  - right. exists F_atexit. rewrite existsb_app. orb_true.
  - right. exists F_signal_override. rewrite existsb_app. orb_true.
  - right. exists F_debug_setup. unfold setup_head. rewrite !existsb_app.
    orb_true.
  - right. exists F_dlog_event. unfold dlog_tev in *. rewrite !existsb_app.
    orb_true.
  - right. exists F_klog_event. unfold klog_tev, setup_events in *.
    rewrite !existsb_app. orb_true.
Qed.

Lemma X4_witness :
  (2 < length ["pelikan_slimcache"])%nat \/
  exists f,
    occurs env_klog_fails
      (trace (final_world (run env_klog_fails ["pelikan_slimcache"]))) f.
Proof.
  apply (X4_nonzero_exit_has_cause env_klog_fails ["pelikan_slimcache"]
           EX_CONFIG).
  - reflexivity.
  - discriminate.
Defined.

(** X5. No module is set up before teardown is registered with [atexit]
    and [_shutdown] is installed for SIGTERM: in every run in which a
    [*_setup] function was called, both registrations are in place. *)
Theorem X5_registered_before_any_setup E argv :
  acquired (trace (final_world (run E argv))) ≠ [] ->
  atexit_registered (final_world (run E argv)) = [Fn_teardown] /\
  signal_handlers (final_world (run E argv)) = [(SIGTERM, Fn_shutdown)] /\
  atexit_result E = 0 /\ 0 <= signal_override_result E.
Proof.
  run_paths E argv; cbn [final_world];
    intros Hne; try (exfalso; apply Hne; modules; reflexivity); clear Hne.
  all: break_stage; repeat split; solve [reflexivity | assumption].
Qed.

Lemma X5_witness :
  atexit_registered (final_world (run env_klog_fails ["pelikan_slimcache"]))
  = [Fn_teardown].
Proof.
  refine (proj1 (X5_registered_before_any_setup env_klog_fails
                   ["pelikan_slimcache"] _)).
  vm_compute. discriminate.
Defined.

(** X6. The modules are set up in one fixed order, logging first: the
    modules set up in a run are an initial part of [log], [debug] and then
    the library and pelikan modules in the order of [setup]; when
    [debug_setup] fails none is set up after [debug]; and a run that calls
    [core_run] has set up every one of them. *)
Theorem X6_modules_in_order_logging_first E argv :
  acquired (trace (final_world (run E argv)))
    `prefix_of` m_log :: m_debug :: acquired module_events /\
  (debug_setup_result E < 0 ->
   acquired (trace (final_world (run E argv))) `prefix_of` [m_log; m_debug]) /\
  (existsb is_core_run (trace (final_world (run E argv))) = true ->
   acquired (trace (final_world (run E argv)))
   = m_log :: m_debug :: acquired module_events).
Proof.
  assert (Hshape :
    acquired (trace (final_world (run E argv))) = [] \/
    (acquired (trace (final_world (run E argv))) = [m_log; m_debug] /\
     debug_setup_result E < 0) \/
    (acquired (trace (final_world (run E argv)))
     = m_log :: m_debug :: acquired module_events /\
     0 <= debug_setup_result E)).
  { run_paths E argv; cbn [final_world]; break_stage.
    all: first
      [ left; modules; reflexivity
      | right; left; split; [modules; reflexivity|assumption]
      | right; right; split; [modules; reflexivity|assumption] ]. }
  assert (Hcr :
    existsb is_core_run (trace (final_world (run E argv))) = true ->
    acquired (trace (final_world (run E argv)))
    = m_log :: m_debug :: acquired module_events).
  { run_paths E argv; cbn [final_world trace world_of].
    all: try (intros Hcr; exfalso; revert Hcr;
              match goal with
              | |- ?b = true -> False =>
                  assert (Hno : b = false) by no_core_run;
                  rewrite Hno; discriminate
              end).
    all: intros _; modules; reflexivity. }
  split; [|split; [|exact Hcr]].
  - destruct Hshape as [->|[[-> _]|[-> _]]].
    + apply prefix_nil.
    + by exists (acquired module_events).
    + done.
  - intros Hd. destruct Hshape as [->|[[-> _]|[_ ?]]]; [apply prefix_nil|done|lia].
Qed.

Lemma X6_witness :
  acquired (trace (final_world (run env_ok ["pelikan_slimcache"])))
  = m_log :: m_debug :: acquired module_events.
Proof.
  refine (proj2 (proj2 (X6_modules_in_order_logging_first env_ok
                          ["pelikan_slimcache"])) _).
  vm_compute. reflexivity.
Defined.

Lemma clears_running_load E argv :
  existsb clears_running (load_events E argv) = false.
Proof. piece. Qed.
Lemma clears_running_cmd argv : existsb clears_running (cmd_events argv) = false.
Proof. piece. Qed.
Lemma clears_running_app E : existsb clears_running (app_events E) = false.
Proof. piece. Qed.
Lemma clears_running_error f : existsb clears_running (error_events f) = false.
Proof. piece. Qed.
Lemma clears_running_setup E : existsb clears_running (setup_events E) = false.
Proof.
  unfold setup_events. rewrite !existsb_app, clears_running_app. reflexivity.
Qed.

Ltac count_clears :=
  cbn [final_world trace world_of worker_processor running];
  repeat first
    [ rewrite existsb_app
    | rewrite clears_running_load | rewrite clears_running_cmd
    | rewrite clears_running_setup
    | rewrite clears_running_app | rewrite clears_running_error ];
  cbn.

(** X7. Only the SIGTERM handler clears [worker_processor.running]: the
    flag is false at the end of a run exactly when the run made the store
    of [_shutdown] (line 95); in every run without that store, the failing
    ones included, it is still true. *)
Theorem X7_running_cleared_only_by_handler E argv :
  running (worker_processor (final_world (run E argv))) = false <->
  existsb clears_running (trace (final_world (run E argv))) = true.
Proof.
  run_paths E argv; count_clears; rewrite ?orb_true_r; done.
Qed.

Lemma X7_witness :
  running (worker_processor (final_world (run env_ok ["pelikan_slimcache"])))
  = false.
Proof.
  apply X7_running_cleared_only_by_handler. vm_compute. reflexivity.
Defined.

(** X8. Once [setup] has returned the pid file stays: it was created if
    and only if a pid file name is configured, and neither the return of
    [core_run] nor the SIGTERM handler removes it. *)
Theorem X8_pidfile_left_in_place E argv :
  set_up E argv ->
  pidfiles_created (trace (final_world (run E argv)))
  = option_list (opt_pid_filename E) /\
  pidfiles_removed (trace (final_world (run E argv))) = [].
Proof.
  intros Hs. run_paths E argv; try contra.
  all: cbn [final_world trace world_of].
  all: destruct (no_pidfile_load E argv) as [Hc Hr], (pidfile_app E) as [Hc' Hr'].
  all: unfold pidfiles_created, pidfiles_removed, setup_events,
         shutdown_events in *.
  all: rewrite !omap_app, Hc, Hr, Hc', Hr'.
  all: destruct (opt_pid_filename E); split; reflexivity.
Qed.

Lemma X8_witness :
  pidfiles_created (trace (final_world (run env_ok ["pelikan_slimcache"])))
  = ["slimcache.pid"] /\
  pidfiles_removed (trace (final_world (run env_ok ["pelikan_slimcache"]))) = [].
Proof.
  exact (X8_pidfile_left_in_place env_ok ["pelikan_slimcache"] set_up_env_ok).
Defined.

Lemma events_after_skip P A B :
  existsb P A = false -> events_after P (A ++ B) = events_after P B.
Proof.
  induction A as [|e A IH]; [done|]. cbn [existsb app events_after].
  intros [He HA]%orb_false_iff. rewrite He. auto.
Qed.

Lemma events_after_none P tr :
  existsb P tr = false -> events_after P tr = None.
Proof.
  induction tr as [|e tr IH]; [done|]. cbn [existsb events_after].
  intros [He Htr]%orb_false_iff. rewrite He. auto.
Qed.

Lemma no_create_pidfile_load E argv :
  existsb is_create_pidfile (load_events E argv) = false.
Proof. piece. Qed.
Lemma no_create_pidfile_cmd argv :
  existsb is_create_pidfile (cmd_events argv) = false.
Proof. piece. Qed.

(** X9. The pid file is created after the process has daemonized, so that
    it holds the pid of the daemon: no call of [daemonize] follows the call
    of [create_pidfile], and when daemonizing is configured the call of
    [daemonize] is the call just before it. *)
Theorem X9_pidfile_created_after_daemonize E argv post :
  events_after is_create_pidfile (trace (final_world (run E argv))) = Some post ->
  existsb is_daemonize post = false /\
  (opt_daemonize E = true ->
   exists pre f,
     trace (final_world (run E argv))
     = pre ++ ev_daemonize :: ev_create_pidfile f :: post).
Proof.
  run_paths E argv; cbn [final_world trace world_of].
  all: rewrite ?(events_after_skip _ (load_events _ _))
         by apply no_create_pidfile_load.
  all: rewrite ?(events_after_skip _ (cmd_events _))
         by apply no_create_pidfile_cmd.
  all: unfold setup_events, app_events, error_events, shutdown_events.
  all: destruct (opt_daemonize E), (opt_pid_filename E) as [f|];
    cbn; try discriminate.
  all: intros [= <-]; split; [reflexivity|]; intros Hd; try discriminate Hd.
  all: exists (load_events E argv ++ setup_head), f; rewrite <- app_assoc;
    reflexivity.
Qed.

Lemma X9_witness :
  exists post,
    events_after is_create_pidfile
      (trace (final_world (run env_ok ["pelikan_slimcache"]))) = Some post /\
    existsb is_daemonize post = false.
Proof.
  eexists. split; [vm_compute; reflexivity|].
  refine (proj1 (X9_pidfile_created_after_daemonize env_ok
                   ["pelikan_slimcache"] _ _)).
  vm_compute. reflexivity.
Defined.

(** X10. The registrations stop at the first failure and [slimcache_tev]
    keeps what [core_admin_register] returned: when [setup] gets as far as
    the timed events, the debug-log event is always requested, the
    command-log event only if the debug-log event was registered, and each
    entry of [slimcache_tev] is the handle returned for it (NULL for a
    failed or missing call). *)
Theorem X10_registrations_stop_at_first_failure E argv :
  loaded E argv -> atexit_result E = 0 ->
  0 <= signal_override_result E -> 0 <= debug_setup_result E ->
  registrations (trace (final_world (run E argv)))
  = (opt_dlog_intvl E, debug_log_flush) ::
    match dlog_tev E with
    | Some _ => [(opt_klog_intvl E, klog_flush)]
    | None => []
    end /\
  slimcache_tev (final_world (run E argv))
  = match dlog_tev E with
    | Some t => [Some t; klog_tev E]
    | None => [None; None]
    end.
Proof.
  intros Hl Hat Hsig Hdbg. run_paths E argv; try contra.
  all: cbn [final_world trace world_of slimcache_tev].
  all: unfold registrations, setup_events.
  all: rewrite !omap_app.
  all: fold (registrations (load_events E argv)) (registrations (app_events E)).
  all: rewrite registrations_load, registrations_app.
  all: break_stage;
    repeat match goal with
    | H : dlog_tev _ = _ |- _ => rewrite H
    | H : klog_tev _ = _ |- _ => rewrite H
    end.
  all: unfold error_events, shutdown_events;
    destruct (opt_pid_filename E); split; reflexivity.
Qed.

Lemma loaded_env_klog_fails : loaded env_klog_fails ["pelikan_slimcache"].
Proof.
  split; [left; cbn; lia|]. split; [reflexivity|]. intros [? [=]].
Defined.

Lemma X10_witness :
  registrations (trace (final_world (run env_klog_fails ["pelikan_slimcache"])))
  = [(500, debug_log_flush); (100, klog_flush)] /\
  slimcache_tev (final_world (run env_klog_fails ["pelikan_slimcache"]))
  = [Some 1%nat; None].
Proof.
  apply (X10_registrations_stop_at_first_failure env_klog_fails
           ["pelikan_slimcache"] loaded_env_klog_fails).
  - reflexivity.
  - cbn. lia.
  - cbn. lia.
Defined.

Lemma no_reads_file_app E : existsb reads_file (app_events E) = false.
Proof. piece. Qed.
Lemma no_reads_file_error o : existsb reads_file (error_events o) = false.
Proof. piece. Qed.

Ltac no_file :=
  cbn [final_world trace world_of];
  unfold setup_events, shutdown_events;
  repeat first
    [ progress cbn [existsb reads_file orb]
    | rewrite existsb_app | rewrite no_reads_file_app
    | rewrite no_reads_file_error ];
  reflexivity.

(** X11. Without an argument the server starts on the default option
    values alone: no file is opened, loaded or closed anywhere in the run,
    and the first call after the optional notice is [option_load_default]. *)
Theorem X11_no_argument_reads_no_file E argv :
  (length argv <= 1)%nat ->
  existsb reads_file (trace (final_world (run E argv))) = false /\
  exists rest,
    trace (final_world (run E argv))
    = (if bool_decide (length argv = 1%nat)
       then [log_stderr "launching server with default values." []]
       else []) ++ ev_option_load_default :: rest.
Proof.
  intros Hlen. run_paths E argv; try (exfalso; subst; cbn in *; lia).
  all: break_stage; try (exfalso; subst; cbn in *; (lia || discriminate)).
  all: unfold load_events, config_file, cmd_events in *; cbn [app] in *;
    try discriminate.
  all: split; [no_file|].
  all: cbn [final_world trace world_of length bool_decide app];
    eexists; reflexivity.
Qed.

Lemma X11_witness :
  existsb reads_file (trace (final_world (run env_ok ["pelikan_slimcache"])))
  = false.
Proof.
  refine (proj1 (X11_no_argument_reads_no_file env_ok ["pelikan_slimcache"] _)).
  cbn. lia.
Defined.

Lemma files_closed_app_events E : files_closed (app_events E) = [].
Proof. piece. Qed.
Lemma files_closed_error o : files_closed (error_events o) = [].
Proof. piece. Qed.

(** X12. The configuration file is closed right after it is loaded, on
    success and on failure of the load alike; the one path that leaves it
    open is the exit on a failure of [option_load_default], which comes
    before the file is read. *)
Theorem X12_config_file_closed_unless_defaults_fail E p a f :
  a ∉ option_flags -> fopen_result E a = Some f ->
  files_closed (trace (final_world (run E [p; a])))
  = if bool_decide (option_load_default_result E = CC_OK) then [f] else [].
Proof.
  intros Hflag Hf. run_paths E [p; a]; try contra.
  all: cbn [final_world trace world_of].
  all: unfold files_closed, load_events, setup_events, shutdown_events,
         config_file, cmd_events.
  all: rewrite ?Hf, ?omap_app.
  all: fold (files_closed (app_events E))
         (files_closed (error_events (opt_pid_filename E))).
  all: rewrite ?files_closed_app_events, ?files_closed_error.
  all: break_stage; use_file_load.
  all: first [ rewrite bool_decide_true by assumption
             | rewrite bool_decide_false by assumption ].
  all: reflexivity.
Qed.

Lemma X12_witness :
  files_closed
    (trace (final_world (run env_ok ["pelikan_slimcache"; "slimcache.conf"])))
  = [7%nat].
Proof.
  refine (X12_config_file_closed_unless_defaults_fail env_ok
            "pelikan_slimcache" "slimcache.conf" 7%nat _ eq_refl).
  unfold option_flags. rewrite !not_elem_of_cons.
  repeat split; try discriminate. apply not_elem_of_nil.
Defined.

Lemma atexit_events_quiet fns :
  unregistered (atexit_events fns) = [] /\
  exit_statuses (atexit_events fns) = [].
Proof.
  induction fns as [|[] fns [IH1 IH2]]; [done|].
  cbn [atexit_events flat_map]. unfold unregistered, exit_statuses in *.
  rewrite !omap_app. fold (atexit_events fns). rewrite IH1, IH2. done.
Qed.

(** X13. [_shutdown] does not ask which timed events exist: from any state
    it calls [core_admin_unregister] once for every entry of
    [slimcache_tev], in index order and NULL entries included, leaves the
    array as it is, and then calls [exit(EX_OK)] once. *)
Theorem X13_shutdown_unregisters_every_entry signo w :
  length (slimcache_tev w) = MAX_TIMEOUT_EV ->
  exists w',
    _shutdown signo w = Exited EX_OK w' /\
    unregistered (trace w') = unregistered (trace w) ++ slimcache_tev w /\
    slimcache_tev w' = slimcache_tev w /\
    exit_statuses (trace w') = exit_statuses (trace w) ++ [EX_OK].
Proof.
  intros Hlen. rewrite shutdown_run. eexists. split; [reflexivity|].
  destruct (atexit_events_quiet (atexit_registered w)) as [Hu He].
  assert (Ht : tev_entries w = slimcache_tev w).
  { unfold tev_entries.
    destruct (slimcache_tev w) as [|t0 [|t1 [|]]]; try discriminate.
    reflexivity. }
  cbn [emits set_running trace slimcache_tev]. rewrite Ht.
  unfold shutdown_events.
  change (ev_exit EX_OK :: atexit_events (atexit_registered w))
    with ([ev_exit EX_OK] ++ atexit_events (atexit_registered w)).
  unfold unregistered, exit_statuses in *.
  rewrite !omap_app, Hu, He.
  destruct (slimcache_tev w) as [|t0 [|t1 [|]]]; try discriminate.
  repeat split; cbn; by rewrite ?app_nil_r.
Qed.

Lemma X13_witness :
  exists w',
    _shutdown SIGTERM initial_world = Exited EX_OK w' /\
    unregistered (trace w') = [None; None] /\
    slimcache_tev w' = [None; None] /\
    exit_statuses (trace w') = [EX_OK].
Proof.
  exact (X13_shutdown_unregisters_every_entry SIGTERM initial_world eq_refl).
Defined.

(** X14. [teardown] runs at most once and only from [exit]: the modules
    torn down in a run are those of one [teardown], each module once, when
    the run ends in [exit] with [teardown] registered, and none otherwise
    (an exit before [atexit] succeeded, or a run that keeps serving). *)
Theorem X14_teardown_once_and_only_at_exit E argv :
  released (trace (final_world (run E argv)))
  = match exit_status (run E argv),
          atexit_registered (final_world (run E argv)) with
    | Some _, _ :: _ => released teardown_events
    | _, _ => []
    end /\
  NoDup (released teardown_events).
Proof.
  split.
  - run_paths E argv; cbn [final_world exit_status atexit_registered world_of];
      modules; reflexivity.
  - apply (bool_decide_unpack _). vm_compute. exact I.
Qed.

(** X15. [teardown] does not depend on what was set up: when
    [signal_override] fails, [exit(EX_OSERR)] runs the whole of [teardown]
    although no module has been set up and no handler is installed. *)
Theorem X15_teardown_runs_without_setup E argv :
  loaded E argv -> atexit_result E = 0 -> signal_override_result E < 0 ->
  exit_status (run E argv) = Some EX_OSERR /\
  acquired (trace (final_world (run E argv))) = [] /\
  released (trace (final_world (run E argv))) = released teardown_events /\
  signal_handlers (final_world (run E argv)) = [].
Proof.
  intros Hl Hat Hsig. run_paths E argv; try contra.
  cbn [final_world exit_status signal_handlers world_of].
  repeat split; modules; reflexivity.
Qed.

(** As [env_ok], with [signal_override] failing. *)
Lemma X15_witness :
  let E :=
    {| atexit_result := 0; signal_override_result := -1;
       debug_setup_result := 0;
       opt_daemonize := opt_daemonize env_ok;
       opt_pid_filename := opt_pid_filename env_ok;
       opt_dlog_intvl := 500; opt_klog_intvl := 100;
       core_admin_register_result := core_admin_register_result env_ok;
       fopen_result := fopen_result env_ok;
       option_load_default_result := CC_OK; option_load_file_result := CC_OK;
       core_run_behaviour := CoreSigterm |} in
  exit_status (run E ["pelikan_slimcache"]) = Some EX_OSERR /\
  acquired (trace (final_world (run E ["pelikan_slimcache"]))) = [].
Proof.
  intros E.
  destruct (X15_teardown_runs_without_setup E ["pelikan_slimcache"])
    as (H1 & H2 & _).
  - split; [left; cbn; lia|]. split; [reflexivity|]. intros [? [=]].
  - reflexivity.
  - cbn. lia.
  - split; assumption.
Defined.

(** X16. The program name is not looked at: two command lines that differ
    in [argv[0]] only give the same run. *)
Theorem X16_program_name_ignored E p p' args :
  run E (p :: args) = run E (p' :: args).
Proof. destruct args as [|a [|b args]]; reflexivity. Qed.

(** X17. An exit with [EX_OK] has one of three origins, and the first two
    always give it: the one argument is a flag; the SIGTERM handler ran
    (the run has the store of [_shutdown]); or [core_run] was called and
    returned.  A run that ends before the call of [core_run], without a
    flag and without the handler, exits with another status. *)
Theorem X17_exit_ok_origins E argv :
  (exit_status (run E argv) = Some EX_OK ->
   (exists p a, argv = [p; a] /\ a ∈ option_flags) \/
   existsb clears_running (trace (final_world (run E argv))) = true \/
   existsb is_core_run (trace (final_world (run E argv))) = true) /\
  ((exists p a, argv = [p; a] /\ a ∈ option_flags) \/
   existsb clears_running (trace (final_world (run E argv))) = true ->
   exit_status (run E argv) = Some EX_OK).
Proof.
  split.
  - run_paths E argv; cbn [exit_status]; intros [=].
    1-4: left; eexists _, _; split; [eassumption|];
      unfold option_flags;
      match goal with H : _ \/ _ |- _ => destruct H as [->| ->] end;
      repeat first [apply list_elem_of_here | apply list_elem_of_further].
    all: right; right; has_core_run.
  - intros [(p & a & -> & Ha)|Hc].
    + revert Ha. unfold option_flags. rewrite !elem_of_cons, elem_of_nil.
      intros [->|[->|[->|[->|[->|[->|[->|[->|[]]]]]]]]]; reflexivity.
    + revert Hc. run_paths E argv; count_clears; rewrite ?orb_true_r;
        first [discriminate | reflexivity].
Qed.

Lemma X17_witness :
  exit_status (run env_ok ["pelikan_slimcache"]) = Some EX_OK.
Proof.
  apply X17_exit_ok_origins. right. vm_compute. reflexivity.
Defined.
